(** * get-pubmed-papers: the extraction-and-classification pipeline

    A shallow embedding of [src/get_papers/fetcher.py]
    ([has_company_affiliation] and [parse_articles], then [search_pubmed]
    and [fetch_pubmed_articles]) and of [src/main.py], together with the
    parts of the Python runtime they lean on: [str] values and the [in] /
    [+] operators, [xml.etree.ElementTree] trees with [find] and [findall],
    and [re.search] for the one pattern the module uses. *)

From Stdlib Require Import Ascii String List NArith Bool Arith Lia.
Import ListNotations.

Set Implicit Arguments.
Set Warnings "-register-all".

(** ** Python values *)

Module Py.

(** A Python [str] is a sequence of Unicode code points. *)
Definition str := list N.

(** An ASCII literal of the source, as a [str]. *)
Definition lit (s : string) : str :=
  List.map N_of_ascii (list_ascii_of_string s).

Fixpoint str_eqb (a b : str) : bool :=
  match a, b with
  | [], [] => true
  | x :: a', y :: b' => N.eqb x y && str_eqb a' b'
  | _, _ => false
  end.

(** [s.startswith(k)], the test [k in s] performs at every offset. *)
Fixpoint startswith (k s : str) : bool :=
  match k, s with
  | [], _ => true
  | x :: k', y :: s' => N.eqb x y && startswith k' s'
  | _ :: _, [] => false
  end.

(** [k in s] on two strings: substring containment. *)
Fixpoint contains (k s : str) : bool :=
  startswith k s ||
  match s with
  | [] => false
  | _ :: s' => contains k s'
  end.

(** [any(f(x) for x in l)]. *)
Definition any {A : Type} (f : A -> bool) (l : list A) : bool := existsb f l.

(** The exceptions that the module can let escape. *)
Inductive exn : Type :=
| RuntimeError (msg : str)
| TypeError
| LookupError
| ValueError
| OSError.

Inductive result (A : Type) : Type :=
| Ok (a : A)
| Raise (e : exn).

Arguments Ok {A} a.
Arguments Raise {A} e.

Definition bind {A B : Type} (m : result A) (k : A -> result B) : result B :=
  match m with
  | Ok a => k a
  | Raise e => Raise e
  end.

(** [a + b] where either operand may be [None]: only [str + str] is
    defined, anything else raises [TypeError]. *)
Definition add (a b : option str) : result str :=
  match a, b with
  | Some x, Some y => Ok (x ++ y)
  | _, _ => Raise TypeError
  end.

(** Truth value of a [str]-or-[None]: [None] and [""] are falsy. *)
Definition truthy (v : option str) : bool :=
  match v with
  | None => false
  | Some [] => false
  | Some (_ :: _) => true
  end.

End Py.

Notation "x <- m ;; k" := (Py.bind m (fun x => k))
  (at level 61, m at next level, right associativity).

(** ** xml.etree.ElementTree *)

Module ET.
Import Py.

(** An element: its tag, its [text] (the character data before the first
    child, [None] when there is none) and its children in document order.
    Attributes and [tail] are never read by the module. *)
Inductive Element : Type :=
| Elem (tag : str) (text : option str) (children : list Element).

Definition tag (e : Element) : str := let (t, _, _) := e in t.
Definition text (e : Element) : option str := let (_, x, _) := e in x.
Definition children (e : Element) : list Element := let (_, _, c) := e in c.

(** [e.iter()]: the element itself, then its subtree, in document order. *)
Fixpoint iter (e : Element) : list Element :=
  match e with
  | Elem _ _ cs => e :: flat_map iter cs
  end.

Definition has_tag (t : str) (e : Element) : bool := str_eqb (tag e) t.

(** Every element strictly below [e], in document order. *)
Definition below (e : Element) : list Element := flat_map iter (children e).

(** [e.findall(".//t")]: the descendants of [e] tagged [t]; [e] itself is
    skipped. *)
Definition findall_desc (t : str) (e : Element) : list Element :=
  filter (has_tag t) (below e).

(** [e.findall("t")]: the direct children of [e] tagged [t]. *)
Definition findall_child (t : str) (e : Element) : list Element :=
  filter (has_tag t) (children e).

(** [e.findall(".//t1/t2")]: for each descendant tagged [t1], in document
    order, its direct children tagged [t2]. *)
Definition findall_desc_child (t1 t2 : str) (e : Element) : list Element :=
  flat_map (findall_child t2) (findall_desc t1 e).

(** What [ET.fromstring] does with a document besides parsing it: an
    encoding declaration that names an unknown encoding raises
    [LookupError], one that names a multi-byte encoding raises
    [ValueError]. *)
Inductive codec_error : Type :=
| UnknownEncoding
| MultiByteEncoding.

Definition exn_of_codec (c : codec_error) : exn :=
  match c with
  | UnknownEncoding => LookupError
  | MultiByteEncoding => ValueError
  end.

(** The outcomes of [ET.fromstring]: the root of the tree, an
    [ET.ParseError] for text that is not well-formed, or one of the two
    errors of the encoding declaration. *)
Inductive parsed : Type :=
| Tree (root : Element)
| Malformed
| Unsupported (c : codec_error).

(** [find] is the first item of the corresponding [findall], or [None]. *)
Definition find_desc (t : str) (e : Element) : option Element :=
  hd_error (findall_desc t e).

Definition find_child (t : str) (e : Element) : option Element :=
  hd_error (findall_child t e).

Definition find_desc_child (t1 t2 : str) (e : Element) : option Element :=
  hd_error (findall_desc_child t1 t2 e).

End ET.

(** ** re.search for the e-mail pattern *)

Module Re.
Import Py.

Section Pattern.

(** [\w] on a [str] pattern asks the Unicode character database whether a
    code point is alphanumeric.  The table belongs to the interpreter;
    beyond ASCII it is taken as a parameter. *)
Variable unicode_alnum : N -> bool.

Definition ascii_alnum (c : N) : bool :=
  ((48 <=? c) && (c <=? 57) || (65 <=? c) && (c <=? 90)
   || (97 <=? c) && (c <=? 122))%N.

(** [\w] *)
Definition is_word (c : N) : bool :=
  if (c <? 128)%N then ascii_alnum c || (c =? 95)%N else unicode_alnum c.

(** The character set [[\w\.-]]. *)
Definition in_class (c : N) : bool :=
  is_word c || (c =? 46)%N || (c =? 45)%N.

(** A greedy [[p]+] followed by the rest of the pattern [k]: take one
    character of the set, prefer taking more, and fall back to the rest
    of the pattern when the longer attempt fails.  The result is the
    matched text. *)
Fixpoint plus (p : N -> bool) (k : str -> option str) (s : str)
  : option str :=
  match s with
  | [] => None
  | c :: s' =>
      if p c then
        option_map (cons c)
          (match plus p k s' with
           | Some m => Some m
           | None => k s'
           end)
      else None
  end.

(** The literal [@]. *)
Definition at_sign (k : str -> option str) (s : str) : option str :=
  match s with
  | c :: s' => if (c =? 64)%N then option_map (cons c) (k s') else None
  | [] => None
  end.

(** [[\w\.-]+@[\w\.-]+] anchored at the start of [s]. *)
Definition match_here (s : str) : option str :=
  plus in_class (at_sign (plus in_class (fun _ => Some []))) s.

(** [re.search]: the match at the leftmost position that has one;
    positions are tried from left to right up to the end of the text. *)
Fixpoint search (s : str) : option str :=
  match match_here s with
  | Some m => Some m
  | None =>
      match s with
      | [] => None
      | _ :: s' => search s'
      end
  end.

End Pattern.

End Re.

(** ** get_papers/fetcher.py *)

Module Fetcher.
Import Py ET.

Definition keywords : list str :=
  [lit "Inc"; lit "Ltd"; lit "Corporation"; lit "Pharma"; lit "Biotech";
   lit "LLC"].

Definition excluded : list str :=
  [lit "University"; lit "Hospital"; lit "School"; lit "Institute"].

(** [has_company_affiliation] (lines 59-73); the argument is
    [affil_elem.text], a [str] or [None]. *)
Definition has_company_affiliation (affiliation : option str) : bool :=
  if negb (truthy affiliation) then false
  else
    match affiliation with
    | Some s =>
        any (fun k => contains k s) keywords
        && negb (any (fun e => contains e s) excluded)
    | None => false
    end.

(** One entry of the result list.  [pmid], [title] and [date] hold
    whatever [.text] gave, which may be [None]. *)
Record ResultRecord : Type := mkResult {
  pmid : option str;
  title : option str;
  date : option str;
  authors : list str;
  affiliations : list str;
  emails : list str
}.

Definition company_author : Type := (str * str * str)%type.

Definition title_of (article : Element) : option str :=
  match find_desc (lit "ArticleTitle") article with
  | Some title_elem => text title_elem
  | None => Some (lit "No Title")
  end.

Definition pmid_of (article : Element) : option str :=
  match find_desc (lit "PMID") article with
  | Some pmid_elem => text pmid_elem
  | None => Some (lit "N/A")
  end.

Definition pub_date_of (article : Element) : option str :=
  match find_desc (lit "PubDate") article with
  | Some date_elem =>
      match find_child (lit "Year") date_elem with
      | Some year => text year
      | None =>
          match find_child (lit "MedlineDate") date_elem with
          | Some medline_date => text medline_date
          | None => Some (lit "Unknown")
          end
      end
  | None => Some (lit "Unknown")
  end.

(** The [full_name] expression (line 114); the left operand of the outer
    [+] is evaluated first. *)
Definition full_name_of (author : Element) : result str :=
  let last := find_child (lit "LastName") author in
  let first := find_child (lit "ForeName") author in
  left <- match first with
          | Some f => add (text f) (Some (lit " "))
          | None => Ok []
          end ;;
  add (Some left)
      (match last with
       | Some l => text l
       | None => Some []
       end).

Definition affil_of (author : Element) : option Element :=
  find_desc_child (lit "AffiliationInfo") (lit "Affiliation") author.

Section Pipeline.

Variable unicode_alnum : N -> bool.

(** The parser [ET.fromstring]. *)
Variable fromstring : list Byte.byte -> parsed.

(** [email_match.group(0) if email_match else "N/A"] *)
Definition email_of (affiliation_text : str) : str :=
  match Re.search unicode_alnum affiliation_text with
  | Some m => m
  | None => lit "N/A"
  end.

(** The body of [for author in authors] (lines 110-121): what the author
    adds to [company_authors], if anything. *)
Definition author_entry (author : Element)
  : result (option company_author) :=
  match affil_of author with
  | Some affil_elem =>
      if has_company_affiliation (text affil_elem) then
        full_name <- full_name_of author ;;
        match text affil_elem with
        | Some affiliation_text =>
            Ok (Some (full_name, affiliation_text,
                      email_of affiliation_text))
        | None => Raise TypeError (* [re.search] on [None]; never reached,
                                     [None] does not classify *)
        end
      else Ok None
  | None => Ok None
  end.

Fixpoint author_loop (authors : list Element)
  (company_authors : list company_author)
  : result (list company_author) :=
  match authors with
  | [] => Ok company_authors
  | author :: rest =>
      entry <- author_entry author ;;
      author_loop rest
        (match entry with
         | Some t => company_authors ++ [t]
         | None => company_authors
         end)
  end.

(** The body of [for article in ...] (lines 93-131): the record appended
    to [results], if any. *)
Definition article_entry (article : Element)
  : result (option ResultRecord) :=
  let title := title_of article in
  let pmid := pmid_of article in
  let pub_date := pub_date_of article in
  company_authors <-
    author_loop (findall_desc (lit "Author") article) [] ;;
  match company_authors with
  | [] => Ok None
  | _ :: _ =>
      Ok (Some {| pmid := pmid;
                  title := title;
                  date := pub_date;
                  authors := List.map (fun a => fst (fst a)) company_authors;
                  affiliations :=
                    List.map (fun a => snd (fst a)) company_authors;
                  emails := List.map (fun a => snd a) company_authors |})
  end.

Fixpoint article_loop (articles : list Element)
  (results : list ResultRecord) : result (list ResultRecord) :=
  match articles with
  | [] => Ok results
  | article :: rest =>
      entry <- article_entry article ;;
      article_loop rest
        (match entry with
         | Some r => results ++ [r]
         | None => results
         end)
  end.

(** [parse_articles] once the tree is there: the spec's [extract]. *)
Definition extract (root : Element) : result (list ResultRecord) :=
  article_loop (findall_desc (lit "PubmedArticle") root) [].

Definition parse_articles (xml_data : list Byte.byte)
  : result (list ResultRecord) :=
  match fromstring xml_data with
  | Malformed =>
      Raise (RuntimeError (lit "Error parsing XML data from PubMed"))
  | Unsupported c => Raise (exn_of_codec c) (* not an [ET.ParseError] *)
  | Tree root => extract root
  end.

End Pipeline.

End Fetcher.

(** ** What the claims speak of *)

Module Spec.
Import Py ET Fetcher.

(** [k] occurs in [s] as a contiguous run of characters. *)
Definition Substring (k s : str) : Prop :=
  exists pre post, s = pre ++ k ++ post.

(** [m] has the shape local-part [@] domain, both parts non-empty and made
    of word characters, dots and hyphens. *)
Definition EmailShape (unicode_alnum : N -> bool) (m : str) : Prop :=
  exists l d,
    m = l ++ 64%N :: d /\ l <> [] /\ d <> [] /\
    Forall (fun c => Re.in_class unicode_alnum c = true) l /\
    Forall (fun c => Re.in_class unicode_alnum c = true) d.

(** [c] is the first child of [e] that carries the tag [t]. *)
Definition FirstChild (t : str) (e c : Element) : Prop :=
  exists pre post,
    children e = pre ++ c :: post /\ tag c = t /\
    Forall (fun x => tag x <> t) pre.

(** No child of [e] carries the tag [t]. *)
Definition NoChild (t : str) (e : Element) : Prop :=
  Forall (fun x => tag x <> t) (children e).

(** [c] is the first element below [e], in document order, tagged [t]. *)
Definition FirstBelow (t : str) (e c : Element) : Prop :=
  exists pre post,
    below e = pre ++ c :: post /\ tag c = t /\
    Forall (fun x => tag x <> t) pre.

(** Nothing below [e] carries the tag [t]. *)
Definition NoneBelow (t : str) (e : Element) : Prop :=
  Forall (fun x => tag x <> t) (below e).

(** The author's affiliation text classifies as commercial. *)
Definition author_qualifies (author : Element) : bool :=
  match affil_of author with
  | Some affil_elem => has_company_affiliation (text affil_elem)
  | None => false
  end.

(** The record has at least one qualifying author. *)
Definition article_qualifies (article : Element) : bool :=
  existsb author_qualifies (findall_desc (lit "Author") article).

(** The records of a document. *)
Definition records (root : Element) : list Element :=
  findall_desc (lit "PubmedArticle") root.

(** Every name part that a qualifying author carries has text. *)
Definition names_have_text (author : Element) : bool :=
  match find_child (lit "ForeName") author with
  | Some f => match text f with Some _ => true | None => false end
  | None => true
  end
  &&
  match find_child (lit "LastName") author with
  | Some l => match text l with Some _ => true | None => false end
  | None => true
  end.

(** The sub-field of the date block [d] that is consulted: the first year
    field, or, when there is no year field, the first free-form date. *)
Definition DateField (d e : Element) : Prop :=
  FirstChild (lit "Year") d e \/
  (NoChild (lit "Year") d /\ FirstChild (lit "MedlineDate") d e).

Definition NoDateField (d : Element) : Prop :=
  NoChild (lit "Year") d /\ NoChild (lit "MedlineDate") d.

(** The record built for [article] from the entries [ts] of its qualifying
    authors. *)
Definition record_of (article : Element) (ts : list company_author)
  : ResultRecord :=
  {| pmid := pmid_of article;
     title := title_of article;
     date := pub_date_of article;
     authors := List.map (fun a => fst (fst a)) ts;
     affiliations := List.map (fun a => snd (fst a)) ts;
     emails := List.map (fun a => snd a) ts |}.

End Spec.

(** ** Sample documents *)

Module Samples.
Import Py ET Fetcher Spec.

Definition leaf (t s : string) : Element := Elem (lit t) (Some (lit s)) [].

Definition node (t : string) (cs : list Element) : Element :=
  Elem (lit t) None cs.

Definition affiliation_info (s : string) : Element :=
  node "AffiliationInfo" [leaf "Affiliation" s].

Definition record (fields : list Element) (authors : list Element)
  : Element :=
  node "PubmedArticle"
    [node "MedlineCitation"
       (fields ++ [node "Article" [node "AuthorList" authors]])].

Definition document (articles : list Element) : Element :=
  node "PubmedArticleSet" articles.

(** [<ForeName/>] on an author of a company. *)
Definition empty_forename_author : Element :=
  node "Author"
    [leaf "LastName" "Doe"; node "ForeName" [];
     affiliation_info "Acme Pharma Inc, Boston"].

Definition empty_forename_doc : Element :=
  document [record [leaf "PMID" "1"; leaf "ArticleTitle" "A trial"]
              [empty_forename_author]].

Definition author_b : Element :=
  node "Author"
    [leaf "LastName" "Smith"; leaf "ForeName" "Bob";
     affiliation_info "Global Biotech LLC, San Diego, bsmith@globalbiotech.com"].

Definition author_a : Element :=
  node "Author"
    [leaf "LastName" "Jones"; leaf "ForeName" "Ann";
     affiliation_info "Dept. of Chemistry, Stanford University"].

(** A record whose identifier text happens to read [N/A]. *)
Definition sentinel_text_article : Element :=
  record [leaf "PMID" "N/A"; leaf "ArticleTitle" "A trial"] [author_b].

Definition two_author_article : Element :=
  record [leaf "PMID" "7"; leaf "ArticleTitle" "A trial";
          node "PubDate"
            [leaf "Year" "2020"; leaf "MedlineDate" "2020 Spring"]]
    [author_a; author_b].

Definition two_author_doc : Element := document [two_author_article].

Definition two_author_pub_date : Element :=
  node "PubDate" [leaf "Year" "2020"; leaf "MedlineDate" "2020 Spring"].

Definition author_b_entry : company_author :=
  (lit "Bob Smith",
   lit "Global Biotech LLC, San Diego, bsmith@globalbiotech.com",
   lit "bsmith@globalbiotech.com").

Definition two_author_record : ResultRecord :=
  record_of two_author_article [author_b_entry].

Definition sentinel_text_record : ResultRecord :=
  record_of sentinel_text_article [author_b_entry].

(** A character table for texts that stay within ASCII. *)
Definition no_unicode : N -> bool := fun _ => false.

End Samples.

(** ** The network functions of get_papers/fetcher.py *)

From Stdlib Require Import ZArith DecimalString.

Module Net.
Import Py ET Fetcher.

(** A value of the [params] dictionary of a request. *)
Inductive param : Type :=
| PStr (s : str)
| PInt (n : Z).

(** What [requests.get] followed by [raise_for_status] comes to: the body
    of the response, or a [RequestException] with its text. *)
Inductive response : Type :=
| Content (body : list Byte.byte)
| RequestException (msg : str).

(** What can escape the functions below: the exceptions of the extraction,
    and [ET.ParseError]. *)
Inductive raised : Type :=
| Core (e : exn)
| ParseError.

Inductive outcome (A : Type) : Type :=
| Return (a : A)
| Throw (e : raised).

Arguments Return {A} a.
Arguments Throw {A} e.

(** [sep.join(items)]; an item that is not a [str] raises [TypeError]. *)
Fixpoint join (sep : str) (items : list (option str)) : result str :=
  match items with
  | [] => Ok []
  | None :: _ => Raise TypeError
  | Some s :: rest =>
      match rest with
      | [] => Ok s
      | _ :: _ => r <- join sep rest ;; Ok (s ++ sep ++ r)
      end
  end.

(** [sep.join(items)] on a list of [str]. *)
Fixpoint join_str (sep : str) (items : list str) : str :=
  match items with
  | [] => []
  | s :: rest =>
      match rest with
      | [] => s
      | _ :: _ => s ++ sep ++ join_str sep rest
      end
  end.

Definition esearch_url : str :=
  lit "https://eutils.ncbi.nlm.nih.gov/entrez/eutils/esearch.fcgi".

Definition efetch_url : str :=
  lit "https://eutils.ncbi.nlm.nih.gov/entrez/eutils/efetch.fcgi".

Definition esearch_params (query : str) (max_results : Z)
  : list (str * param) :=
  [(lit "db", PStr (lit "pubmed")); (lit "term", PStr query);
   (lit "retmode", PStr (lit "xml")); (lit "retmax", PInt max_results)].

Definition efetch_params (joined : str) : list (str * param) :=
  [(lit "db", PStr (lit "pubmed")); (lit "id", PStr joined);
   (lit "retmode", PStr (lit "xml"))].

Section Requests.

(** The remote service, as seen through [requests.get]. *)
Variable requests_get : str -> list (str * param) -> response.

(** The parser [ET.fromstring]. *)
Variable fromstring : list Byte.byte -> parsed.

(** [search_pubmed] (lines 7-32).  Only the request is inside the [try];
    a [ParseError] of the response is not caught. *)
Definition search_pubmed (query : str) (max_results : Z)
  : outcome (list (option str)) :=
  match requests_get esearch_url (esearch_params query max_results) with
  | RequestException e =>
      Throw (Core (RuntimeError
                     (lit "Error fetching PubMed search results: " ++ e)))
  | Content content =>
      match fromstring content with
      | Malformed => Throw ParseError
      | Unsupported c => Throw (Core (exn_of_codec c))
      | Tree root =>
          Return (List.map text (findall_desc (lit "Id") root))
      end
  end.

(** [fetch_pubmed_articles] (lines 35-56).  [params] is built, and the ids
    are joined, before the [try] is entered. *)
Definition fetch_pubmed_articles (ids : list (option str))
  : outcome (list Byte.byte) :=
  match join (lit ",") ids with
  | Raise e => Throw (Core e)
  | Ok joined =>
      match requests_get efetch_url (efetch_params joined) with
      | Content content => Return content
      | RequestException e =>
          Throw (Core (RuntimeError
                         (lit "Error fetching PubMed articles: " ++ e)))
      end
  end.

End Requests.

End Net.

(** ** main.py *)

Module Main.
Import Py ET Fetcher Net.

(** The namespace that [parser.parse_args()] returns. *)
Record Args : Type := mkArgs {
  query : str;
  file : option str;
  max : Z;
  debug : bool
}.

(** What a run does to the outside: a text handed to [print], a CSV file
    written with its rows, or an exception that nothing catches and that
    ends the run.  A cell is a [str], or [None], which the writer renders as
    an empty field. *)
Inductive event : Type :=
| Print (line : str)
| WriteCsv (filename : str) (rows : list (list (option str)))
| Escapes (e : raised).

(** [str(n)] for an [int]. *)
Definition str_of_int (n : Z) : str :=
  lit (NilZero.string_of_int (Z.to_int n)).

(** [len(l)] formatted into an f-string. *)
Definition str_of_len {A : Type} (l : list A) : str :=
  str_of_int (Z.of_nat (List.length l)).

(** A [str]-or-[None] formatted into an f-string. *)
Definition format (v : option str) : str :=
  match v with
  | Some s => s
  | None => lit "None"
  end.

Definition csv_header : list (option str) :=
  [Some (lit "PubmedID"); Some (lit "Title"); Some (lit "Publication Date");
   Some (lit "Non-academic Author(s)"); Some (lit "Company Affiliation(s)");
   Some (lit "Corresponding Author Email(s)")].

Definition csv_row (item : ResultRecord) : list (option str) :=
  [pmid item; title item; date item;
   Some (join_str (lit "; ") (authors item));
   Some (join_str (lit "; ") (affiliations item));
   Some (join_str (lit "; ") (emails item))].

Definition rule : str :=
  lit "--------------------------------------------------".

Definition console_block (item : ResultRecord) : list event :=
  [Print rule;
   Print ([128216%N] ++ lit " Pubmed ID      : " ++ format (pmid item));
   Print ([128196%N] ++ lit " Title          : " ++ format (title item));
   Print ([128197%N] ++ lit " Date           : " ++ format (date item));
   Print ([128100%N] ++ lit " Author(s)      : "
          ++ join_str (lit ", ") (authors item));
   Print ([127970%N] ++ lit " Affiliation(s) : "
          ++ join_str (lit ", ") (affiliations item));
   Print ([128231%N] ++ lit " Email(s)       : "
          ++ join_str (lit ", ") (emails item))].

(** [print_to_console] (lines 36-51). *)
Definition print_to_console (data : list ResultRecord) : list event :=
  flat_map console_block data ++ [Print rule].

Section Run.

Variable unicode_alnum : N -> bool.
Variable requests_get : str -> list (str * param) -> response.
Variable fromstring : list Byte.byte -> parsed.

(** [str(e)] for the exceptions whose text the interpreter makes up. *)
Variable builtin_text : raised -> str.

(** Whether [open(filename, "w", ...)] succeeds; it raises [OSError] when
    it does not (a directory that is missing, a path that may not be
    written).  Rows written to a file that was opened are taken to reach
    it. *)
Variable open_ok : str -> bool.

(** [save_to_csv] (lines 7-33): the file is opened, then the header and a
    row for each item are written. *)
Definition save_to_csv (data : list ResultRecord) (filename : str)
  : outcome (list event) :=
  if open_ok filename
  then Return [WriteCsv filename (csv_header :: List.map csv_row data)]
  else Throw (Core OSError).

(** [str(e)]: a [RuntimeError] shows the message it was raised with. *)
Definition str_of_raised (e : raised) : str :=
  match e with
  | Core (RuntimeError msg) => msg
  | _ => builtin_text e
  end.

(** The second [try] of [main]: fetch, then parse. *)
Definition fetch_and_parse (ids : list (option str))
  : outcome (list ResultRecord) :=
  match fetch_pubmed_articles requests_get ids with
  | Throw e => Throw e
  | Return xml_data =>
      match parse_articles unicode_alnum fromstring xml_data with
      | Ok results => Return results
      | Raise e => Throw (Core e)
      end
  end.

Definition when (b : bool) (events : list event) : list event :=
  if b then events else [].

(** [main] (lines 54-102), from the parsed arguments on. *)
Definition main (args : Args) : list event :=
  when (debug args)
    [Print ([128269%N] ++ lit " Searching for: " ++ query args);
     Print ([128230%N] ++ lit " Max results: " ++ str_of_int (max args));
     Print ([9203%N] ++ lit " Fetching article IDs...")]
  ++
  match search_pubmed requests_get fromstring (query args) (max args) with
  | Throw e =>
      [Print ([10060%N] ++ lit " Error during search: " ++ str_of_raised e)]
  | Return [] =>
      [Print ([10060%N] ++ lit " No articles found for the given query.")]
  | Return ((_ :: _) as ids) =>
      when (debug args)
        [Print ([9989%N] ++ lit " Found " ++ str_of_len ids
                ++ lit " articles");
         Print ([9203%N] ++ lit " Fetching article metadata...")]
      ++
      match fetch_and_parse ids with
      | Throw e =>
          [Print ([10060%N] ++ lit " Error fetching/parsing articles: "
                  ++ str_of_raised e)]
      | Return results =>
          when (debug args)
            [Print ([9989%N] ++ lit " " ++ str_of_len results
                    ++ lit " articles with company authors found.")]
          ++
          match results with
          | [] =>
              [Print ([9888%N] ++ [65039%N]
                      ++ lit " No company-affiliated authors found in the articles.")]
          | _ :: _ =>
              match file args with
              | Some ((_ :: _) as filename) => (* [if args.file:] *)
                  match save_to_csv results filename with
                  | Return written =>
                      written
                      ++ [Print ([10%N] ++ [9989%N] ++ lit " Saved "
                                 ++ str_of_len results ++ lit " results to '"
                                 ++ filename ++ lit "'")]
                  | Throw e => [Escapes e] (* outside both [try] blocks *)
                  end
              | _ => print_to_console results
              end
          end
      end
  end.

End Run.

End Main.

(** ** Further notions *)

Module Derived.
Import Py ET Fetcher Spec Net Main.

(** In the record, every qualifying author's name parts have text. *)
Definition names_ok_record (article : Element) : bool :=
  forallb (fun a => negb (author_qualifies a) || names_have_text a)
    (findall_desc (lit "Author") article).

(** The same, for every record of the document. *)
Definition names_ok_doc (root : Element) : bool :=
  forallb names_ok_record (records root).

Definition is_write (e : event) : bool :=
  match e with
  | WriteCsv _ _ => true
  | Print _ => false
  | Escapes _ => false
  end.

End Derived.

(** ** A sample service *)

Module SampleService.
Import Py ET Net Samples.

(** A search answer whose second id element is empty. *)
Definition search_answer : Element :=
  node "eSearchResult"
    [node "IdList" [leaf "Id" "31452104"; node "Id" []]].

(** A service that answers every request with an empty body, and a parser
    that reads the search answer out of it. *)
Definition empty_body_service (url : str) (params : list (str * param))
  : response := Content [].

Definition search_answer_parser (body : list Byte.byte) : parsed :=
  Tree search_answer.

(** A file system in which every file can be opened. *)
Definition every_file_opens (filename : str) : bool := true.

Definition no_builtin_text (e : raised) : str := [].

End SampleService.

(** ** Affiliation texts in document order *)

Module Order.
Import Py ET Fetcher.

(** [e.iter()], each element with the tag of its parent; [p] is the tag of
    the parent of [e]. *)
Fixpoint iter_under (p : str) (e : Element) : list (str * Element) :=
  match e with
  | Elem t _ cs => (p, e) :: flat_map (iter_under t) cs
  end.

(** An affiliation text: an [Affiliation] child of an [AffiliationInfo]
    block. *)
Definition is_affiliation_text (pe : str * Element) : bool :=
  str_eqb (fst pe) (lit "AffiliationInfo")
  && has_tag (lit "Affiliation") (snd pe).

(** The affiliation texts below [e], in document order. *)
Definition texts_below (e : Element) : list Element :=
  List.map snd
    (filter is_affiliation_text (flat_map (iter_under (tag e)) (children e))).

(** The affiliation texts of an author, in document order: those inside
    its children. *)
Definition affiliations_in_document_order (author : Element)
  : list Element := flat_map texts_below (children author).

(** The affiliation texts in the subtree of [e], whose parent is tagged
    [p], in document order. *)
Definition texts_in (p : str) (e : Element) : list Element :=
  List.map snd (filter is_affiliation_text (iter_under p e)).

(** What the path [.//AffiliationInfo/Affiliation] selects in the subtree
    of [e], [e] included: block by block, the [Affiliation] children. *)
Definition path_texts_in (e : Element) : list Element :=
  flat_map (findall_child (lit "Affiliation"))
    (filter (has_tag (lit "AffiliationInfo")) (iter e)).

(** No affiliation block in or below [e]. *)
Definition no_block (e : Element) : bool :=
  forallb (fun x => negb (has_tag (lit "AffiliationInfo") x)) (iter e).

(** No affiliation block of the author lies inside another one. *)
Definition blocks_not_nested (author : Element) : bool :=
  forallb (fun b => forallb no_block (children b))
    (findall_desc (lit "AffiliationInfo") author).

(** The same for the blocks in the subtree of [e], [e] included. *)
Definition nesting_free (e : Element) : bool :=
  forallb (fun b => forallb no_block (children b))
    (filter (has_tag (lit "AffiliationInfo")) (iter e)).

End Order.

(** ** Further sample documents *)

Module MoreSamples.
Import Py ET Fetcher Spec Samples.

(** Two records with an author of a company each; the author of the second
    carries an empty given-name element. *)
Definition mixed_doc : Element :=
  document
    [two_author_article;
     record [leaf "PMID" "8"; leaf "ArticleTitle" "Another trial"]
       [empty_forename_author]].

(** [<ForeName/>] on an author whose affiliation holds an address. *)
Definition emailed_empty_forename_author : Element :=
  node "Author"
    [leaf "LastName" "Doe"; node "ForeName" [];
     affiliation_info
       "Acme Pharma Inc, Boston. Contact: jane.doe@acme-pharma.com"].

(** An affiliation block that holds another block before its own text. *)
Definition nested_affiliation_author : Element :=
  node "Author"
    [leaf "LastName" "Roe"; leaf "ForeName" "Ann";
     node "AffiliationInfo"
       [affiliation_info "Harvard University";
        leaf "Affiliation" "Acme Pharma Inc"]].

(** Two affiliation blocks side by side. *)
Definition two_block_author : Element :=
  node "Author"
    [leaf "LastName" "Roe"; leaf "ForeName" "Ann";
     affiliation_info "Acme Pharma Inc";
     affiliation_info "Harvard University"].

(** A record whose title element is empty. *)
Definition empty_title_article : Element :=
  record [leaf "PMID" "9"; node "ArticleTitle" []] [author_b].

Definition empty_title_record : ResultRecord :=
  record_of empty_title_article [author_b_entry].

End MoreSamples.

(** * Properties *)

Unset Implicit Arguments.

Import Py ET Fetcher Spec Samples.
Open Scope string_scope.
Open Scope list_scope.

(** ** Strings *)

Lemma str_eqb_eq (a b : str) : str_eqb a b = true <-> a = b.
Proof.
  revert b; induction a as [|x a IH]; intros [|y b]; simpl;
    try (split; (reflexivity || discriminate)).
  rewrite andb_true_iff, N.eqb_eq, IH.
  split; [intros [-> ->]; reflexivity | intros H; inversion H; auto].
Qed.

Lemma str_eqb_neq (a b : str) : str_eqb a b = false <-> a <> b.
Proof.
  rewrite <- str_eqb_eq. destruct (str_eqb a b); split; congruence.
Qed.

Lemma startswith_prefix (k s : str) :
  startswith k s = true <-> exists post, s = k ++ post.
Proof.
  revert s; induction k as [|x k IH]; intros s; simpl.
  - split; [intros _; exists s; reflexivity | reflexivity].
  - destruct s as [|y s].
    + split; [discriminate | intros [post H]; discriminate].
    + rewrite andb_true_iff, N.eqb_eq, IH. split.
      * intros [-> [post ->]]. exists post; reflexivity.
      * intros [post H]. inversion H; subst. split; [reflexivity | eauto].
Qed.

Lemma contains_substring (k s : str) :
  contains k s = true <-> Substring k s.
Proof.
  unfold Substring. induction s as [|c s IH]; simpl.
  - rewrite orb_false_r, startswith_prefix. split.
    + intros [post H]. exists [], post. exact H.
    + intros [pre [post H]]. destruct pre; simpl in H.
      * eauto.
      * discriminate.
  - rewrite orb_true_iff, startswith_prefix, IH. split.
    + intros [[post H] | [pre [post H]]].
      * exists [], post. exact H.
      * exists (c :: pre), post. simpl. now rewrite H.
    + intros [pre [post H]]. destruct pre as [|c' pre]; simpl in H.
      * left. eauto.
      * right. inversion H; subst. eauto.
Qed.

(** ** The classifier *)

Lemma has_company_affiliation_unfold (s : str) :
  has_company_affiliation (Some s) =
  any (fun k => contains k s) keywords
  && negb (any (fun e => contains e s) excluded).
Proof. destruct s; reflexivity. Qed.

(** C2. [has_company_affiliation] is false on an absent or empty affiliation
    and otherwise true exactly when one of the six commercial markers occurs
    in the text and none of the four academic markers does; containment is
    on the raw characters, so it is case-sensitive. *)
Theorem has_company_affiliation_spec :
  keywords = List.map lit
    ["Inc"; "Ltd"; "Corporation"; "Pharma"; "Biotech"; "LLC"] /\
  excluded = List.map lit ["University"; "Hospital"; "School"; "Institute"] /\
  has_company_affiliation None = false /\
  has_company_affiliation (Some []) = false /\
  forall s : str,
    has_company_affiliation (Some s) = true <->
    (exists k, In k keywords /\ Substring k s) /\
    (forall e, In e excluded -> ~ Substring e s).
Proof.
  repeat split; try reflexivity.
  - rewrite has_company_affiliation_unfold in H.
    apply andb_true_iff in H. destruct H as [H _].
    apply existsb_exists in H. destruct H as [k [Hin Hk]].
    exists k. split; [exact Hin | now apply contains_substring].
  - rewrite has_company_affiliation_unfold in H.
    apply andb_true_iff in H. destruct H as [_ H].
    intros e Hin Hsub. apply negb_true_iff in H.
    assert (any (fun e0 => contains e0 s) excluded = true) as Habs.
    { apply existsb_exists. exists e. split; [exact Hin|].
      now apply contains_substring. }
    congruence.
  - intros [[k [Hin Hk]] Hex].
    rewrite has_company_affiliation_unfold. apply andb_true_iff. split.
    + apply existsb_exists. exists k. split; [exact Hin|].
      now apply contains_substring.
    + apply negb_true_iff. apply not_true_is_false. intros Habs.
      apply existsb_exists in Habs. destruct Habs as [e [Hin' He]].
      apply (Hex e Hin'). now apply contains_substring.
Qed.

(** ** The e-mail pattern *)

Section EmailPattern.

Variable unicode_alnum : N -> bool.

Let cls := Re.in_class unicode_alnum.

Lemma at_sign_not_in_class : cls 64%N = false.
Proof. reflexivity. Qed.

(** What a successful greedy run returns: a non-empty run of the set,
    followed by whatever the rest of the pattern matched. *)
Lemma plus_sound (p : N -> bool) (k : str -> option str) (s m : str) :
  Re.plus p k s = Some m ->
  exists l rest r,
    l <> [] /\ s = l ++ rest /\ Forall (fun c => p c = true) l /\
    k rest = Some r /\ m = l ++ r.
Proof.
  revert m; induction s as [|c s IH]; intros m; simpl; [discriminate|].
  destruct (p c) eqn:Hc; [|discriminate].
  destruct (Re.plus p k s) as [m0|] eqn:Hrec; simpl.
  - intros [= <-]. destruct (IH m0 eq_refl) as (l & rest & r & _ & -> & Hl & Hk & ->).
    exists (c :: l), rest, r. repeat split; auto; discriminate.
  - destruct (k s) as [r|] eqn:Hk; simpl; [|discriminate].
    intros [= <-]. exists [c], s, r. repeat split; auto; discriminate.
Qed.

(** A failed greedy run has tried every non-empty run of the set. *)
Lemma plus_complete (p : N -> bool) (k : str -> option str) (s : str) :
  Re.plus p k s = None ->
  forall l rest,
    l <> [] -> s = l ++ rest -> Forall (fun c => p c = true) l ->
    k rest = None.
Proof.
  induction s as [|c s IH]; intros Hnone l rest Hl Hs Hall.
  - destruct l; [congruence | discriminate].
  - destruct l as [|c' l]; [congruence|]. simpl in Hs. inversion Hs; subst c' s.
    inversion Hall as [|? ? Hc Hall']; subst. simpl in Hnone. rewrite Hc in Hnone.
    destruct (Re.plus p k (l ++ rest)) as [m0|] eqn:Hrec; simpl in Hnone;
      [discriminate|].
    destruct l as [|c2 l].
    + simpl in *. destruct (k rest); [discriminate | reflexivity].
    + apply (IH eq_refl (c2 :: l) rest);
        [discriminate | reflexivity | exact Hall'].
Qed.

(** With nothing left to match, the greedy run is the longest one. *)
Lemma plus_last_longest (p : N -> bool) (s d : str) :
  Re.plus p (fun _ => Some []) s = Some d ->
  exists rest,
    s = d ++ rest /\ d <> [] /\ Forall (fun c => p c = true) d /\
    (forall d' rest',
        s = d' ++ rest' -> Forall (fun c => p c = true) d' ->
        length d' <= length d).
Proof.
  revert d; induction s as [|c s IH]; intros d; simpl; [discriminate|].
  destruct (p c) eqn:Hc; [|discriminate].
  destruct (Re.plus p (fun _ => Some []) s) as [m0|] eqn:Hrec; simpl.
  - intros [= <-]. destruct (IH m0 eq_refl) as (rest & -> & Hne & Hall & Hmax).
    exists rest. repeat split; auto; try discriminate.
    intros [|c' d'] rest' Hs Hd'; simpl; [lia|].
    simpl in Hs. inversion Hs; subst. inversion Hd'; subst.
    apply le_n_S. eapply Hmax; eauto.
  - intros [= <-]. exists s. repeat split; auto; try discriminate.
    intros [|c' [|c2 d']] rest' Hs Hd'; simpl; try lia.
    simpl in Hs. inversion Hs; subst. inversion Hd'; subst.
    exfalso.
    assert (Some (@nil N) = None) as Habs; [|discriminate].
    apply (@plus_complete p _ _ Hrec (c2 :: d') rest');
      [discriminate | reflexivity | assumption].
Qed.

Lemma run_before_at (l l' x x' : str) :
  Forall (fun c => cls c = true) l ->
  Forall (fun c => cls c = true) l' ->
  l ++ 64%N :: x = l' ++ 64%N :: x' ->
  l = l' /\ x = x'.
Proof.
  revert l'; induction l as [|c l IH]; intros [|c' l'] Hl Hl' H; simpl in H.
  - inversion H; auto.
  - inversion H; subst. inversion Hl'; subst.
    rewrite at_sign_not_in_class in *. discriminate.
  - inversion H; subst. inversion Hl; subst.
    rewrite at_sign_not_in_class in *. discriminate.
  - inversion H; subst. inversion Hl; inversion Hl'; subst.
    destruct (IH l') as [-> ->]; auto.
Qed.

Lemma match_here_sound (s m : str) :
  Re.match_here unicode_alnum s = Some m ->
  exists post,
    s = m ++ post /\ EmailShape unicode_alnum m /\
    (forall m' post',
        s = m' ++ post' -> EmailShape unicode_alnum m' ->
        length m' <= length m).
Proof.
  unfold Re.match_here. intros H.
  apply plus_sound in H. destruct H as (l & rest & r & Hl & -> & Hall & Hk & ->).
  unfold Re.at_sign in Hk. destruct rest as [|c rest]; [discriminate|].
  destruct (N.eqb_spec c 64); [subst c | discriminate].
  destruct (Re.plus (Re.in_class unicode_alnum) (fun _ => Some []) rest)
    as [d|] eqn:Hd; simpl in Hk; [|discriminate].
  injection Hk as <-.
  apply plus_last_longest in Hd.
  destruct Hd as (post & -> & Hdne & Hdall & Hmax).
  exists post. split; [now rewrite <- app_assoc|]. split.
  - exists l, d. repeat split; auto.
  - intros m' post' Hs (l' & d' & -> & _ & _ & Hl' & Hd').
    rewrite <- app_assoc in Hs. simpl in Hs.
    apply run_before_at in Hs; auto. destruct Hs as [<- Hs].
    rewrite !length_app. simpl. apply Hmax in Hs; auto. lia.
Qed.

Lemma match_here_complete (s : str) :
  Re.match_here unicode_alnum s = None ->
  forall m post, s = m ++ post -> ~ EmailShape unicode_alnum m.
Proof.
  unfold Re.match_here. intros H m post Hs (l & d & -> & Hl & Hd & Hall & Hdall).
  rewrite <- app_assoc in Hs. simpl in Hs.
  pose proof (@plus_complete _ _ _ H l _ Hl Hs Hall) as Hk.
  unfold Re.at_sign in Hk. rewrite N.eqb_refl in Hk.
  destruct (Re.plus (Re.in_class unicode_alnum) (fun _ => Some []) (d ++ post))
    as [r|] eqn:Hr; [discriminate|].
  pose proof (@plus_complete _ _ _ Hr d post Hd eq_refl Hdall). discriminate.
Qed.

(** [re.search] returns the longest match at the leftmost position. *)
Lemma search_some (s m : str) :
  Re.search unicode_alnum s = Some m ->
  exists pre post,
    s = pre ++ m ++ post /\ EmailShape unicode_alnum m /\
    (forall pre' m' post',
        s = pre' ++ m' ++ post' -> EmailShape unicode_alnum m' ->
        length pre <= length pre' /\
        (length pre' = length pre -> length m' <= length m)).
Proof.
  induction s as [|c s IH]; simpl.
  - destruct (Re.match_here unicode_alnum []) eqn:Hm; discriminate.
  - destruct (Re.match_here unicode_alnum (c :: s)) as [m0|] eqn:Hm.
    + intros [= ->]. apply match_here_sound in Hm.
      destruct Hm as (post & Hs & Hshape & Hmax).
      exists [], post. repeat split; auto; simpl; try lia.
      intros Hlen. destruct pre'; [|discriminate]. eapply Hmax; eauto.
    + intros Hs. destruct (IH Hs) as (pre & post & -> & Hshape & Hleft).
      exists (c :: pre), post. repeat split; auto.
      * destruct pre' as [|c' pre']; simpl in *.
        -- exfalso. eapply match_here_complete; eauto.
        -- inversion H; subst. apply le_n_S. eapply Hleft; eauto.
      * destruct pre' as [|c' pre']; simpl in *; [discriminate|].
        inversion H; subst. intros Hlen. eapply Hleft; eauto.
Qed.

Lemma search_none (s : str) :
  Re.search unicode_alnum s = None ->
  forall m, Substring m s -> ~ EmailShape unicode_alnum m.
Proof.
  induction s as [|c s IH]; simpl.
  - destruct (Re.match_here unicode_alnum []) eqn:Hm; [discriminate|].
    intros _ m [pre [post H]]. destruct pre; [|discriminate].
    eapply match_here_complete; eauto.
  - destruct (Re.match_here unicode_alnum (c :: s)) as [m0|] eqn:Hm;
      [discriminate|].
    intros Hs m [pre [post H]]. destruct pre as [|c' pre]; simpl in H.
    + eapply match_here_complete; eauto.
    + inversion H; subst. apply IH; auto. exists pre, post. reflexivity.
Qed.

End EmailPattern.

(** ** Lookups in the tree *)

Lemma hd_filter_some {A : Type} (f : A -> bool) (l : list A) (x : A) :
  hd_error (filter f l) = Some x <->
  exists pre post,
    l = pre ++ x :: post /\ f x = true /\ Forall (fun y => f y = false) pre.
Proof.
  induction l as [|a l IH]; simpl.
  - split; [discriminate | intros (pre & post & H & _)].
    destruct pre; discriminate.
  - destruct (f a) eqn:Ha; simpl.
    + split.
      * intros [= ->]. exists [], l. auto.
      * intros (pre & post & H & Hx & Hpre). destruct pre as [|b pre].
        -- simpl in H. congruence.
        -- simpl in H. inversion H; subst. inversion Hpre; subst. congruence.
    + rewrite IH. split.
      * intros (pre & post & -> & Hx & Hpre). exists (a :: pre), post. auto.
      * intros (pre & post & H & Hx & Hpre). destruct pre as [|b pre].
        -- simpl in H. congruence.
        -- simpl in H. inversion H; subst. inversion Hpre; subst.
           exists pre, post. auto.
Qed.

Lemma hd_filter_none {A : Type} (f : A -> bool) (l : list A) :
  hd_error (filter f l) = None <-> Forall (fun y => f y = false) l.
Proof.
  induction l as [|a l IH]; simpl.
  - split; auto.
  - destruct (f a) eqn:Ha; simpl.
    + split; [discriminate | intros H; inversion H; congruence].
    + rewrite IH. split; [auto | intros H; inversion H; auto].
Qed.

Lemma Forall_has_tag_false (t : str) (l : list Element) :
  Forall (fun y => has_tag t y = false) l <-> Forall (fun x => tag x <> t) l.
Proof.
  unfold has_tag. split; intros H; induction H; constructor; auto;
    now apply str_eqb_neq.
Qed.

Lemma find_child_some (t : str) (e c : Element) :
  find_child t e = Some c <-> FirstChild t e c.
Proof.
  unfold find_child, findall_child, FirstChild. rewrite hd_filter_some.
  unfold has_tag at 1.
  split; intros (pre & post & H & Ht & Hpre); exists pre, post;
    repeat split; auto;
    try (now apply str_eqb_eq); now apply Forall_has_tag_false.
Qed.

Lemma find_child_none (t : str) (e : Element) :
  find_child t e = None <-> NoChild t e.
Proof.
  unfold find_child, findall_child, NoChild.
  now rewrite hd_filter_none, Forall_has_tag_false.
Qed.

Lemma find_desc_some (t : str) (e c : Element) :
  find_desc t e = Some c <-> FirstBelow t e c.
Proof.
  unfold find_desc, findall_desc, FirstBelow. rewrite hd_filter_some.
  unfold has_tag at 1.
  split; intros (pre & post & H & Ht & Hpre); exists pre, post;
    repeat split; auto;
    try (now apply str_eqb_eq); now apply Forall_has_tag_false.
Qed.

Lemma find_desc_none (t : str) (e : Element) :
  find_desc t e = None <-> NoneBelow t e.
Proof.
  unfold find_desc, findall_desc, NoneBelow.
  now rewrite hd_filter_none, Forall_has_tag_false.
Qed.

(** A lookup finds exactly one of: a first match, or no match. *)
Lemma find_child_cases (t : str) (e : Element) :
  (exists c, FirstChild t e c) \/ NoChild t e.
Proof.
  destruct (find_child t e) as [c|] eqn:H.
  - left. exists c. now apply find_child_some.
  - right. now apply find_child_none.
Qed.

(** ** Authors *)

Lemma qualifying_text_present (v : option str) :
  has_company_affiliation v = true -> exists s, v = Some s /\ s <> [].
Proof.
  destruct v as [[|c s]|]; try discriminate.
  intros _. exists (c :: s). split; [reflexivity | discriminate].
Qed.

Lemma full_name_of_total (author : Element) :
  names_have_text author = true -> exists n, full_name_of author = Ok n.
Proof.
  unfold names_have_text, full_name_of. intros H.
  apply andb_true_iff in H. destruct H as [Hf Hl].
  destruct (find_child (lit "ForeName") author) as [f|].
  - destruct (text f) as [g|]; [|discriminate]. simpl.
    destruct (find_child (lit "LastName") author) as [l|].
    + destruct (text l) as [n|]; [|discriminate]. simpl. eauto.
    + simpl. eauto.
  - simpl. destruct (find_child (lit "LastName") author) as [l|].
    + destruct (text l) as [n|]; [|discriminate]. simpl. eauto.
    + simpl. eauto.
Qed.

Section PipelineProperties.

Variable ua : N -> bool.


Lemma author_entry_skip (author : Element) :
  author_qualifies author = false -> author_entry ua author = Ok None.
Proof.
  unfold author_qualifies, author_entry.
  destruct (affil_of author) as [e|]; [|reflexivity].
  intros ->. reflexivity.
Qed.

Lemma author_entry_keep (author : Element) :
  author_qualifies author = true ->
  exists e aff,
    affil_of author = Some e /\ text e = Some aff /\
    has_company_affiliation (Some aff) = true /\
    author_entry ua author =
    (full_name <- full_name_of author ;;
     Ok (Some (full_name, aff, email_of ua aff))).
Proof.
  unfold author_qualifies, author_entry.
  destruct (affil_of author) as [e|]; [|discriminate].
  intros H. rewrite H.
  destruct (qualifying_text_present _ H) as (aff & Haff & _).
  exists e, aff. rewrite Haff in *. auto.
Qed.

(** An entry is produced for the qualifying authors and for them only. *)
Lemma author_entry_some (author : Element) (t : company_author) :
  author_entry ua author = Ok (Some t) -> author_qualifies author = true.
Proof.
  destruct (author_qualifies author) eqn:H; [reflexivity|].
  rewrite (author_entry_skip _ H). discriminate.
Qed.

Lemma author_entry_none (author : Element) :
  author_entry ua author = Ok None -> author_qualifies author = false.
Proof.
  destruct (author_qualifies author) eqn:H; [|reflexivity].
  destruct (author_entry_keep _ H) as (e & aff & _ & _ & _ & ->).
  destruct (full_name_of author); discriminate.
Qed.

Lemma author_loop_ok (l : list Element) (acc res : list company_author) :
  author_loop ua l acc = Ok res ->
  exists ts,
    res = acc ++ ts /\
    Forall2 (fun q t => author_entry ua q = Ok (Some t))
      (filter author_qualifies l) ts.
Proof.
  revert acc; induction l as [|a l IH]; intros acc; simpl.
  - intros [= <-]. exists []. split; [now rewrite app_nil_r | constructor].
  - destruct (author_entry ua a) as [[t|]|e] eqn:Ha; simpl; [| |discriminate].
    + intros H. destruct (IH _ H) as (ts & -> & Hts).
      rewrite (author_entry_some _ _ Ha).
      exists (t :: ts). split; [now rewrite <- app_assoc|].
      constructor; assumption.
    + intros H. rewrite (author_entry_none _ Ha). apply IH, H.
Qed.

Lemma author_loop_total (l : list Element) (acc : list company_author) :
  Forall (fun a => author_qualifies a = true -> names_have_text a = true) l ->
  exists res, author_loop ua l acc = Ok res.
Proof.
  intros H; revert acc; induction H as [|a l Ha _ IH]; intros acc; simpl.
  - eauto.
  - destruct (author_qualifies a) eqn:Hq.
    + destruct (author_entry_keep _ Hq) as (e & aff & _ & _ & _ & ->).
      destruct (full_name_of_total _ (Ha eq_refl)) as [n ->]. simpl. apply IH.
    + rewrite (author_entry_skip _ Hq). simpl. apply IH.
Qed.

(** ** Records *)

Lemma existsb_filter {A : Type} (f : A -> bool) (l : list A) :
  existsb f l = true <-> filter f l <> [].
Proof.
  induction l as [|a l IH]; simpl.
  - split; [discriminate | congruence].
  - destruct (f a); simpl; [split; [discriminate | reflexivity] | exact IH].
Qed.

Lemma article_entry_ok (article : Element) (x : option ResultRecord) :
  article_entry ua article = Ok x ->
  exists ts,
    Forall2 (fun q t => author_entry ua q = Ok (Some t))
      (filter author_qualifies (findall_desc (lit "Author") article)) ts /\
    x = match ts with
        | [] => None
        | _ :: _ => Some (record_of article ts)
        end.
Proof.
  unfold article_entry.
  destruct (author_loop ua (findall_desc (lit "Author") article) [])
    as [res|e] eqn:Hl; simpl; [|discriminate].
  apply author_loop_ok in Hl. destruct Hl as (ts & -> & Hts). simpl.
  intros H. exists ts. split; [exact Hts|].
  destruct ts; inversion H; reflexivity.
Qed.

Lemma article_entry_some (article : Element) (r : ResultRecord) :
  article_entry ua article = Ok (Some r) ->
  article_qualifies article = true /\
  exists ts,
    ts <> [] /\ r = record_of article ts /\
    Forall2 (fun q t => author_entry ua q = Ok (Some t))
      (filter author_qualifies (findall_desc (lit "Author") article)) ts.
Proof.
  intros H. apply article_entry_ok in H. destruct H as (ts & Hts & Hx).
  destruct ts as [|t ts]; [discriminate|]. injection Hx as ->. split.
  - apply existsb_filter. inversion Hts; discriminate.
  - exists (t :: ts). repeat split; auto; discriminate.
Qed.

Lemma article_entry_none (article : Element) :
  article_entry ua article = Ok None -> article_qualifies article = false.
Proof.
  intros H. apply article_entry_ok in H. destruct H as (ts & Hts & Hx).
  destruct ts as [|t ts]; [|discriminate].
  apply not_true_is_false. intros Hq. apply existsb_filter in Hq.
  inversion Hts as [Hnil|]. congruence.
Qed.

Lemma article_entry_skip (article : Element) :
  article_qualifies article = false -> article_entry ua article = Ok None.
Proof.
  intros Hq. unfold article_entry.
  assert (Forall (fun a => author_qualifies a = true ->
                           names_have_text a = true)
            (findall_desc (lit "Author") article)) as Hall.
  { apply Forall_forall. intros a Hin Ha. exfalso.
    assert (article_qualifies article = true); [|congruence].
    apply existsb_exists. eauto. }
  destruct (author_loop_total _ [] Hall) as [res Hres]. rewrite Hres. simpl.
  apply author_loop_ok in Hres. destruct Hres as (ts & -> & Hts). simpl.
  destruct ts as [|t ts]; [reflexivity|]. exfalso.
  assert (article_qualifies article = true); [|congruence].
  apply existsb_filter. inversion Hts; discriminate.
Qed.

Lemma article_loop_ok (l : list Element) (acc res : list ResultRecord) :
  article_loop ua l acc = Ok res ->
  exists rs,
    res = acc ++ rs /\
    Forall2 (fun a r => article_entry ua a = Ok (Some r))
      (filter article_qualifies l) rs.
Proof.
  revert acc; induction l as [|a l IH]; intros acc; simpl.
  - intros [= <-]. exists []. split; [now rewrite app_nil_r | constructor].
  - destruct (article_entry ua a) as [[r|]|e] eqn:Ha; simpl; [| |discriminate].
    + intros H. destruct (IH _ H) as (rs & -> & Hrs).
      destruct (article_entry_some _ _ Ha) as [-> _].
      exists (r :: rs). split; [now rewrite <- app_assoc|].
      constructor; assumption.
    + intros H. rewrite (article_entry_none _ Ha). apply IH, H.
Qed.

Lemma article_entry_total (article : Element) :
  Forall (fun a => author_qualifies a = true -> names_have_text a = true)
    (findall_desc (lit "Author") article) ->
  exists x, article_entry ua article = Ok x.
Proof.
  intros H. unfold article_entry.
  destruct (author_loop_total _ [] H) as [res ->]. simpl.
  destruct res; eauto.
Qed.

Lemma article_loop_total (l : list Element) (acc : list ResultRecord) :
  Forall (fun article =>
            Forall (fun a => author_qualifies a = true ->
                             names_have_text a = true)
              (findall_desc (lit "Author") article)) l ->
  exists res, article_loop ua l acc = Ok res.
Proof.
  intros H; revert acc; induction H as [|a l Ha _ IH]; intros acc; simpl.
  - eauto.
  - destruct (article_entry_total _ Ha) as [x ->]. simpl. apply IH.
Qed.

(** Extraction returns normally on every document in which the name parts
    carried by qualifying authors have text. *)
Lemma extract_total (root : Element) :
  Forall (fun article =>
            Forall (fun a => author_qualifies a = true ->
                             names_have_text a = true)
              (findall_desc (lit "Author") article)) (records root) ->
  exists rs, extract ua root = Ok rs.
Proof. apply article_loop_total. Qed.

Lemma filter_length_le {A : Type} (f : A -> bool) (l : list A) :
  length (filter f l) <= length l.
Proof.
  induction l as [|a l IH]; simpl; [lia|]. destruct (f a); simpl; lia.
Qed.

Lemma Forall2_same_length {A B : Type} (R : A -> B -> Prop)
  (l : list A) (l' : list B) :
  Forall2 R l l' -> length l = length l'.
Proof. induction 1; simpl; congruence. Qed.

Lemma Forall2_in_r {A B : Type} (R : A -> B -> Prop)
  (l : list A) (l' : list B) (y : B) :
  Forall2 R l l' -> In y l' -> exists x, In x l /\ R x y.
Proof.
  induction 1 as [|a b l l' Hab _ IH]; simpl; [tauto|].
  intros [<- | Hin]; [eauto|]. destruct (IH Hin) as (x & Hx & HR). eauto.
Qed.

(** Whenever [extract] returns its list, the list pairs off, in order,
    with the records of the document that have at least one author whose
    affiliation text classifies as commercial: each of those records
    produced exactly its entry, a record without such an author produced
    none, and so the length of the list is the number of such records,
    which is at most the number of records. *)
Theorem extract_emits_qualifying_records
  (root : Element) (rs : list ResultRecord) :
  extract ua root = Ok rs ->
  Forall2 (fun article r => article_entry ua article = Ok (Some r))
    (filter article_qualifies (records root)) rs /\
  (forall article,
      In article (records root) ->
      article_qualifies article = false ->
      article_entry ua article = Ok None) /\
  length rs = length (filter article_qualifies (records root)) /\
  length rs <= length (records root).
Proof.
  unfold extract. intros H. apply article_loop_ok in H.
  destruct H as (rs' & -> & Hrs). simpl. unfold records.
  pose proof (Forall2_same_length _ _ _ Hrs) as Hlen.
  repeat split.
  - exact Hrs.
  - intros article _ Hq. now apply article_entry_skip.
  - now rewrite Hlen.
  - rewrite <- Hlen. apply filter_length_le.
Qed.

Lemma combine_entries (ts : list company_author) :
  combine
    (combine (List.map (fun a => fst (fst a)) ts)
       (List.map (fun a => snd (fst a)) ts))
    (List.map (fun a => snd a) ts) = ts.
Proof.
  induction ts as [|[[n a] e] ts IH]; simpl; [reflexivity | now rewrite IH].
Qed.

(** C4. In every record that [extract] returns, [authors], [affiliations]
    and [emails] have one length, and the triples read off at equal indices
    are, in document order, the entries of the qualifying authors of the
    source record. *)
Theorem parallel_author_sequences
  (root : Element) (rs : list ResultRecord) (r : ResultRecord) :
  extract ua root = Ok rs ->
  In r rs ->
  length (authors r) = length (affiliations r) /\
  length (affiliations r) = length (emails r) /\
  exists article,
    In article (records root) /\
    article_entry ua article = Ok (Some r) /\
    Forall2 (fun author t => author_entry ua author = Ok (Some t))
      (filter author_qualifies (findall_desc (lit "Author") article))
      (combine (combine (authors r) (affiliations r)) (emails r)).
Proof.
  unfold extract. intros H Hin. apply article_loop_ok in H.
  destruct H as (rs' & -> & Hrs). simpl in Hin.
  destruct (Forall2_in_r _ _ _ _ Hrs Hin) as (article & Ha & Hr).
  apply filter_In in Ha. destruct Ha as [Ha _].
  destruct (article_entry_some _ _ Hr) as (_ & ts & _ & -> & Hts). simpl.
  rewrite !length_map. repeat split.
  exists article. repeat split; auto. now rewrite combine_entries.
Qed.

(** ** Sentinels and the date *)

Lemma field_or_sentinel (t sentinel : str) (article : Element) :
  match find_desc t article with
  | Some e => text e
  | None => Some sentinel
  end = Some sentinel <->
  NoneBelow t article \/
  exists e, FirstBelow t article e /\ text e = Some sentinel.
Proof.
  destruct (find_desc t article) as [e|] eqn:H.
  - apply find_desc_some in H. split.
    + intros Ht. right. eauto.
    + intros [Hn | (e' & He' & Ht)].
      * apply find_desc_none in Hn. apply find_desc_some in H. congruence.
      * apply find_desc_some in H, He'. congruence.
  - split; [|reflexivity]. intros _. left. now apply find_desc_none.
Qed.

Lemma pub_date_of_field (article d e : Element) :
  FirstBelow (lit "PubDate") article d ->
  DateField d e ->
  pub_date_of article = text e.
Proof.
  intros Hd He. unfold pub_date_of.
  apply find_desc_some in Hd. rewrite Hd.
  destruct He as [Hy | [Hn Hm]].
  - apply find_child_some in Hy. now rewrite Hy.
  - apply find_child_none in Hn. apply find_child_some in Hm.
    now rewrite Hn, Hm.
Qed.

Lemma pub_date_of_no_field (article d : Element) :
  FirstBelow (lit "PubDate") article d ->
  NoDateField d ->
  pub_date_of article = Some (lit "Unknown").
Proof.
  intros Hd [Hy Hm]. unfold pub_date_of.
  apply find_desc_some in Hd. apply find_child_none in Hy, Hm.
  now rewrite Hd, Hy, Hm.
Qed.

Lemma pub_date_of_no_block (article : Element) :
  NoneBelow (lit "PubDate") article ->
  pub_date_of article = Some (lit "Unknown").
Proof.
  intros H. unfold pub_date_of. apply find_desc_none in H. now rewrite H.
Qed.

Lemma date_field_cases (d : Element) :
  (exists e, DateField d e) \/ NoDateField d.
Proof.
  unfold DateField, NoDateField.
  destruct (find_child_cases (lit "Year") d) as [[y Hy] | Hy]; [eauto|].
  destruct (find_child_cases (lit "MedlineDate") d) as [[m Hm] | Hm]; eauto.
Qed.

Lemma pub_date_of_unknown (article : Element) :
  pub_date_of article = Some (lit "Unknown") <->
  NoneBelow (lit "PubDate") article \/
  exists d,
    FirstBelow (lit "PubDate") article d /\
    (NoDateField d \/
     exists e, DateField d e /\ text e = Some (lit "Unknown")).
Proof.
  split.
  - intros H. destruct (find_desc (lit "PubDate") article) as [d|] eqn:Hd.
    + right. exists d. apply find_desc_some in Hd. split; [exact Hd|].
      destruct (date_field_cases d) as [[e He] | Hn]; [right | now left].
      exists e. split; [exact He|].
      now rewrite <- (pub_date_of_field _ _ _ Hd He).
    + left. now apply find_desc_none.
  - intros [Hn | (d & Hd & [Hn | (e & He & Ht)])].
    + now apply pub_date_of_no_block.
    + now apply pub_date_of_no_field with d.
    + now rewrite (pub_date_of_field _ _ _ Hd He).
Qed.

Lemma present_field_is_copied (article : Element) (r : ResultRecord) :
  article_entry ua article = Ok (Some r) ->
  (forall e, FirstBelow (lit "PMID") article e -> pmid r = text e) /\
  (forall e, FirstBelow (lit "ArticleTitle") article e ->
             title r = text e) /\
  (forall d e, FirstBelow (lit "PubDate") article d -> DateField d e ->
               date r = text e).
Proof.
  intros H. destruct (article_entry_some _ _ H) as (_ & ts & _ & -> & _).
  simpl. split; [|split].
  - intros e He. unfold pmid_of. apply find_desc_some in He. now rewrite He.
  - intros e He. unfold title_of. apply find_desc_some in He. now rewrite He.
  - apply pub_date_of_field.
Qed.

Lemma empty_stays_empty (v : option str) (sentinel : str) :
  truthy v = false -> truthy (Some sentinel) = true ->
  truthy v = false /\ v <> Some sentinel.
Proof. intros Hv Hs. split; [exact Hv | congruence]. Qed.


(** C6. For a record with a date block, the date is the text of the year
    sub-field when there is one, whatever else the block holds; otherwise
    the text of the free-form date sub-field when there is one; otherwise
    [Unknown].  An emitted record carries that date. *)
Theorem pub_date_priority (article d : Element) :
  FirstBelow (lit "PubDate") article d ->
  (forall year, FirstChild (lit "Year") d year ->
                pub_date_of article = text year) /\
  (forall medline_date,
      NoChild (lit "Year") d ->
      FirstChild (lit "MedlineDate") d medline_date ->
      pub_date_of article = text medline_date) /\
  (NoChild (lit "Year") d -> NoChild (lit "MedlineDate") d ->
   pub_date_of article = Some (lit "Unknown")) /\
  (forall r, article_entry ua article = Ok (Some r) ->
             date r = pub_date_of article).
Proof.
  intros Hd. repeat apply conj.
  - intros y Hy. apply pub_date_of_field with d; [exact Hd | now left].
  - intros m Hn Hm. apply pub_date_of_field with d; [exact Hd | now right].
  - intros Hy Hm. apply pub_date_of_no_field with d; [exact Hd | now split].
  - intros r Hr. destruct (article_entry_some _ _ Hr) as (_ & ts & _ & -> & _).
    reflexivity.
Qed.

(** ** Names and e-mail addresses *)

Lemma author_entry_parts (author : Element) (t : company_author) :
  author_entry ua author = Ok (Some t) ->
  exists e,
    affil_of author = Some e /\
    text e = Some (snd (fst t)) /\
    has_company_affiliation (text e) = true /\
    full_name_of author = Ok (fst (fst t)) /\
    snd t = email_of ua (snd (fst t)).
Proof.
  intros H. pose proof (author_entry_some _ _ H) as Hq.
  destruct (author_entry_keep _ Hq) as (e & aff & He & Ht & Hc & Heq).
  rewrite Heq in H. destruct (full_name_of author) as [n|x]; simpl in H;
    [|discriminate].
  injection H as <-. simpl. exists e. rewrite Ht. auto.
Qed.

(** The full name is the given name, one space, the family name when
    both name parts are there; the family name alone when there is no given
    name; empty when there is neither.  It is the name that the entry of a
    qualifying author carries. *)
Theorem full_name_rule (author : Element) :
  (forall first last given family,
      FirstChild (lit "ForeName") author first -> text first = Some given ->
      FirstChild (lit "LastName") author last -> text last = Some family ->
      full_name_of author = Ok (given ++ lit " " ++ family)) /\
  (forall last family,
      NoChild (lit "ForeName") author ->
      FirstChild (lit "LastName") author last -> text last = Some family ->
      full_name_of author = Ok family) /\
  (NoChild (lit "ForeName") author -> NoChild (lit "LastName") author ->
   full_name_of author = Ok []) /\
  (forall t, author_entry ua author = Ok (Some t) ->
             full_name_of author = Ok (fst (fst t))).
Proof.
  unfold full_name_of. repeat apply conj.
  - intros f l g n Hf Hg Hl Hn.
    apply find_child_some in Hf, Hl. rewrite Hf, Hl, Hg, Hn. simpl.
    now rewrite <- app_assoc.
  - intros l n Hf Hl Hn.
    apply find_child_none in Hf. apply find_child_some in Hl.
    now rewrite Hf, Hl, Hn.
  - intros Hf Hl. apply find_child_none in Hf, Hl. now rewrite Hf, Hl.
  - intros t Ht. destruct (author_entry_parts _ _ Ht) as (e & _ & _ & _ & H & _).
    exact H.
Qed.

(** The e-mail of an entry is read off the affiliation text of the
    author: the leftmost substring of the shape local-part [@] domain (and
    the longest one that starts there), or [N/A] when no substring has that
    shape.  On the text of the example it is [jane.doe@acme-pharma.com]. *)
Theorem email_is_first_match :
  (forall s : str,
      (exists pre m post,
          s = pre ++ m ++ post /\ EmailShape ua m /\ email_of ua s = m /\
          forall pre' m' post',
            s = pre' ++ m' ++ post' -> EmailShape ua m' ->
            length pre <= length pre' /\
            (length pre' = length pre -> length m' <= length m)) \/
      ((forall m, Substring m s -> ~ EmailShape ua m) /\
       email_of ua s = lit "N/A")) /\
  email_of ua
    (lit "Acme Pharma Inc, Boston. Contact: jane.doe@acme-pharma.com") =
  lit "jane.doe@acme-pharma.com" /\
  (forall author t,
      author_entry ua author = Ok (Some t) ->
      exists e,
        affil_of author = Some e /\ text e = Some (snd (fst t)) /\
        snd t = email_of ua (snd (fst t))).
Proof.
  split; [|split].
  - intros s. unfold email_of.
    destruct (Re.search ua s) as [m|] eqn:Hs.
    + left. destruct (search_some _ _ _ Hs) as (pre & post & H & Hm & Hleft).
      exists pre, m, post. auto.
    + right. split; [|reflexivity]. now apply search_none.
  - vm_compute. reflexivity.
  - intros author t Ht.
    destruct (author_entry_parts _ _ Ht) as (e & He & Hx & _ & _ & Hm).
    eauto.
Qed.

(** ** Several affiliation blocks *)

Lemma hd_error_app {A : Type} (l l' : list A) :
  hd_error l <> None -> hd_error (l ++ l') = hd_error l.
Proof. destruct l; simpl; congruence. Qed.

Lemma findall_desc_child_app (t1 t2 tg : str) (tx : option str)
  (cs cs' : list Element) :
  findall_desc_child t1 t2 (Elem tg tx (cs ++ cs')) =
  findall_desc_child t1 t2 (Elem tg tx cs) ++
  findall_desc_child t1 t2 (Elem tg tx cs').
Proof.
  unfold findall_desc_child, findall_desc, below. simpl.
  now rewrite flat_map_app, filter_app, flat_map_app.
Qed.

Lemma find_child_skip (t tg : str) (tx : option str)
  (pre extra post : list Element) :
  Forall (fun x => tag x <> t) extra ->
  find_child t (Elem tg tx (pre ++ extra ++ post)) =
  find_child t (Elem tg tx (pre ++ post)).
Proof.
  intros H. unfold find_child, findall_child. simpl.
  rewrite !filter_app.
  replace (filter (has_tag t) extra) with (@nil Element); [reflexivity|].
  symmetry. induction H as [|x l Hx _ IH]; simpl; [reflexivity|].
  apply str_eqb_neq in Hx. unfold has_tag at 1. now rewrite Hx.
Qed.

Lemma affil_of_first (tg : str) (tx : option str) (pre more : list Element) :
  affil_of (Elem tg tx pre) <> None ->
  affil_of (Elem tg tx (pre ++ more)) = affil_of (Elem tg tx pre).
Proof.
  unfold affil_of, find_desc_child. intros H.
  rewrite findall_desc_child_app. now apply hd_error_app.
Qed.

(** Once the children of an author hold an affiliation text, further
    affiliation blocks placed after it change nothing: the affiliation
    looked up is still the first one, and the entry of the author (whether
    there is one, its name, its affiliation text and its e-mail) is the
    entry computed without the further blocks. *)
Theorem first_affiliation_only
  (tg : str) (tx : option str) (pre extra post : list Element) :
  affil_of (Elem tg tx pre) <> None ->
  Forall (fun x => tag x = lit "AffiliationInfo") extra ->
  affil_of (Elem tg tx (pre ++ extra ++ post)) = affil_of (Elem tg tx pre) /\
  author_entry ua (Elem tg tx (pre ++ extra ++ post)) =
  author_entry ua (Elem tg tx (pre ++ post)).
Proof.
  intros Hfirst Hextra.
  assert (forall more, affil_of (Elem tg tx (pre ++ more)) =
                       affil_of (Elem tg tx pre)) as Haff.
  { intros more. now apply affil_of_first. }
  split; [apply Haff|].
  unfold author_entry, full_name_of. rewrite !Haff.
  rewrite (find_child_skip (lit "LastName") tg tx pre extra post),
          (find_child_skip (lit "ForeName") tg tx pre extra post);
    [reflexivity | |];
    (eapply Forall_impl; [|exact Hextra]); intros x Hx; rewrite Hx;
    discriminate.
Qed.

(** ** Errors *)

(** The end-to-end scenario of two authors, one academic and one of a
    company: one record, holding the data of the second author only. *)
Example two_author_scenario :
  extract ua two_author_doc = Ok [two_author_record] /\
  authors two_author_record = [lit "Bob Smith"] /\
  emails two_author_record = [lit "bsmith@globalbiotech.com"].
Proof. repeat split; vm_compute; reflexivity. Qed.

(** C3. A well-formed document in which a qualifying author carries an empty
    given-name element makes extraction raise [TypeError]: the name is built
    with [first.text + " "], and the text of an empty element is [None]. *)
Theorem empty_forename_raises :
  author_qualifies empty_forename_author = true /\
  find_child (lit "ForeName") empty_forename_author
  = Some (Elem (lit "ForeName") None []) /\
  extract ua empty_forename_doc = Raise TypeError.
Proof. repeat split; vm_compute; reflexivity. Qed.

(** C9. A parse failure is turned into the [RuntimeError] of the module
    before any record is visited; but it is not the only error that reaches
    the caller: a document that parses can still end in [TypeError]. *)
Theorem parse_error_and_type_error
  (fromstring : list Byte.byte -> parsed)
  (xml_data : list Byte.byte) :
  (fromstring xml_data = Malformed ->
   parse_articles ua fromstring xml_data =
   Raise (RuntimeError (lit "Error parsing XML data from PubMed"))) /\
  (fromstring xml_data = Tree empty_forename_doc ->
   parse_articles ua fromstring xml_data = Raise TypeError).
Proof.
  unfold parse_articles. split; intros ->; [reflexivity|].
  vm_compute. reflexivity.
Qed.

End PipelineProperties.

(** ** The properties at work on the sample documents *)

Lemma extract_emits_qualifying_records_witness :
  extract no_unicode two_author_doc = Ok [two_author_record] /\
  length [two_author_record] =
  length (filter article_qualifies (records two_author_doc)) /\
  length [two_author_record] <= length (records two_author_doc).
Proof.
  assert (extract no_unicode two_author_doc = Ok [two_author_record]) as H
    by (vm_compute; reflexivity).
  split; [exact H|].
  exact (proj2 (proj2 (extract_emits_qualifying_records
                         no_unicode two_author_doc [two_author_record] H))).
Defined.

Lemma parallel_author_sequences_witness :
  extract no_unicode two_author_doc = Ok [two_author_record] /\
  In two_author_record [two_author_record] /\
  length (authors two_author_record) =
  length (affiliations two_author_record) /\
  length (affiliations two_author_record) =
  length (emails two_author_record).
Proof.
  assert (extract no_unicode two_author_doc = Ok [two_author_record]) as H
    by (vm_compute; reflexivity).
  assert (In two_author_record [two_author_record]) as Hin
    by (left; reflexivity).
  destruct (parallel_author_sequences no_unicode two_author_doc
              [two_author_record] two_author_record H Hin) as (Ha & Hb & _).
  auto.
Defined.

Lemma pub_date_priority_witness :
  FirstBelow (lit "PubDate") two_author_article two_author_pub_date /\
  pub_date_of two_author_article = Some (lit "2020").
Proof.
  assert (FirstBelow (lit "PubDate") two_author_article two_author_pub_date)
    as H by (apply find_desc_some; vm_compute; reflexivity).
  split; [exact H|].
  apply (proj1 (pub_date_priority no_unicode two_author_article
                  two_author_pub_date H) (leaf "Year" "2020")).
  apply find_child_some. vm_compute. reflexivity.
Defined.

Lemma first_affiliation_only_witness :
  affil_of (Elem (lit "Author") None (children author_b)) <> None /\
  author_entry no_unicode
    (Elem (lit "Author") None
       (children author_b ++
        [affiliation_info "Stanford University"] ++ [leaf "Suffix" "Jr"])) =
  author_entry no_unicode
    (Elem (lit "Author") None (children author_b ++ [leaf "Suffix" "Jr"])).
Proof.
  assert (affil_of (Elem (lit "Author") None (children author_b)) <> None)
    as H by (vm_compute; discriminate).
  split; [exact H|].
  apply (first_affiliation_only no_unicode (lit "Author") None
           (children author_b) [affiliation_info "Stanford University"]
           [leaf "Suffix" "Jr"] H).
  repeat constructor.
Defined.


(** * Further properties of the extraction *)

Import Net Derived.

Section ExtractionOutcomes.

Variable ua : N -> bool.

Lemma full_name_of_raises (author : Element) :
  names_have_text author = false -> full_name_of author = Raise TypeError.
Proof.
  unfold names_have_text, full_name_of. intros H.
  destruct (find_child (lit "ForeName") author) as [f|].
  - destruct (text f) as [g|]; [|reflexivity]. simpl in *.
    destruct (find_child (lit "LastName") author) as [l|]; [|discriminate].
    destruct (text l); [discriminate | reflexivity].
  - simpl in *.
    destruct (find_child (lit "LastName") author) as [l|]; [|discriminate].
    destruct (text l); [discriminate | reflexivity].
Qed.

Lemma author_entry_raises (author : Element) :
  author_qualifies author = true -> names_have_text author = false ->
  author_entry ua author = Raise TypeError.
Proof.
  intros Hq Hn. destruct (author_entry_keep ua _ Hq) as (e & aff & _ & _ & _ & ->).
  now rewrite (full_name_of_raises _ Hn).
Qed.

Lemma author_loop_cases (l : list Element) (acc : list company_author) :
  if forallb (fun a => negb (author_qualifies a) || names_have_text a) l
  then exists res, author_loop ua l acc = Ok res
  else author_loop ua l acc = Raise TypeError.
Proof.
  revert acc; induction l as [|a l IH]; intros acc; simpl; [eauto|].
  destruct (author_qualifies a) eqn:Hq; simpl.
  - destruct (names_have_text a) eqn:Hn; simpl.
    + destruct (author_entry_keep ua _ Hq) as (e & aff & _ & _ & _ & ->).
      destruct (full_name_of_total _ Hn) as [n ->]. simpl. apply IH.
    + now rewrite (author_entry_raises _ Hq Hn).
  - rewrite (author_entry_skip ua _ Hq). simpl. apply IH.
Qed.

Lemma article_entry_cases (article : Element) :
  if names_ok_record article
  then exists x, article_entry ua article = Ok x
  else article_entry ua article = Raise TypeError.
Proof.
  unfold names_ok_record, article_entry.
  pose proof (author_loop_cases (findall_desc (lit "Author") article) [])
    as H.
  destruct (forallb _ _).
  - destruct H as [res ->]. simpl. destruct res; eauto.
  - now rewrite H.
Qed.

Lemma article_loop_cases (l : list Element) (acc : list ResultRecord) :
  if forallb names_ok_record l
  then exists res, article_loop ua l acc = Ok res
  else article_loop ua l acc = Raise TypeError.
Proof.
  revert acc; induction l as [|a l IH]; intros acc; simpl; [eauto|].
  pose proof (article_entry_cases a) as Ha.
  destruct (names_ok_record a); simpl.
  - destruct Ha as [x ->]. simpl. apply IH.
  - now rewrite Ha.
Qed.

(** X1. [parse_articles] by the outcome of the parser: an [ET.ParseError]
    becomes the [RuntimeError] of the module; a [LookupError] or a
    [ValueError] of the parser is not an [ET.ParseError] and escapes as it
    is; when the text parses, the list of records is returned unless some
    qualifying author of some record carries a name element without text,
    and then, and only then, [TypeError] is raised. *)
Theorem parse_articles_outcomes
  (fromstring : list Byte.byte -> parsed)
  (xml_data : list Byte.byte) :
  match fromstring xml_data with
  | Malformed =>
      parse_articles ua fromstring xml_data =
      Raise (RuntimeError (lit "Error parsing XML data from PubMed"))
  | Unsupported UnknownEncoding =>
      parse_articles ua fromstring xml_data = Raise LookupError
  | Unsupported MultiByteEncoding =>
      parse_articles ua fromstring xml_data = Raise ValueError
  | Tree root =>
      if names_ok_doc root
      then exists rs, parse_articles ua fromstring xml_data = Ok rs
      else parse_articles ua fromstring xml_data = Raise TypeError
  end.
Proof.
  unfold parse_articles.
  destruct (fromstring xml_data) as [root| |[|]]; try reflexivity.
  unfold names_ok_doc, extract, records. apply article_loop_cases.
Qed.

(** What stands behind a record of the output. *)
Lemma emitted_record (root : Element) (rs : list ResultRecord)
  (r : ResultRecord) :
  extract ua root = Ok rs -> In r rs ->
  exists article ts,
    In article (records root) /\ ts <> [] /\ r = record_of article ts /\
    Forall2 (fun author t => author_entry ua author = Ok (Some t))
      (filter author_qualifies (findall_desc (lit "Author") article)) ts.
Proof.
  unfold extract. intros H Hin. apply article_loop_ok in H.
  destruct H as (rs' & -> & Hrs). simpl in Hin.
  destruct (Forall2_in_r _ _ _ _ Hrs Hin) as (article & Ha & Hr).
  apply filter_In in Ha. destruct Ha as [Ha _].
  destruct (article_entry_some _ _ _ Hr) as (_ & ts & Hne & -> & Hts).
  exists article, ts. auto.
Qed.

Lemma Forall2_entries {A : Type} (P : company_author -> Prop)
  (l : list A) (ts : list company_author) (R : A -> company_author -> Prop) :
  (forall a t, R a t -> P t) -> Forall2 R l ts -> Forall P ts.
Proof. intros H; induction 1; constructor; eauto. Qed.

(** X2. No record of the output is empty: each one lists at least one
    author, one affiliation and one e-mail. *)
Theorem emitted_records_have_authors
  (root : Element) (rs : list ResultRecord) (r : ResultRecord) :
  extract ua root = Ok rs -> In r rs ->
  authors r <> [] /\ affiliations r <> [] /\ emails r <> [].
Proof.
  intros H Hin.
  destruct (emitted_record _ _ _ H Hin) as (article & ts & _ & Hne & -> & _).
  destruct ts; [congruence|]. simpl. repeat split; discriminate.
Qed.

(** X3. Every affiliation listed in the output passes the classifier: it is
    a non-empty text that holds one of the company keywords and none of the
    excluded words. *)
Theorem emitted_affiliations_classify
  (root : Element) (rs : list ResultRecord) (r : ResultRecord) :
  extract ua root = Ok rs -> In r rs ->
  Forall (fun aff =>
            aff <> [] /\
            (exists k, In k keywords /\ Substring k aff) /\
            (forall e, In e excluded -> ~ Substring e aff))
    (affiliations r).
Proof.
  intros H Hin.
  destruct (emitted_record _ _ _ H Hin) as (article & ts & _ & _ & -> & Hts).
  unfold record_of; cbn [affiliations]. apply Forall_map.
  eapply Forall2_entries; [|exact Hts].
  intros a t Ht. cbv beta. destruct (author_entry_parts ua _ _ Ht) as (e & _ & Hx & Hc & _).
  rewrite Hx in Hc. split.
  - destruct (qualifying_text_present _ Hc) as (s & [= <-] & Hs). exact Hs.
  - rewrite has_company_affiliation_unfold in Hc.
    apply andb_true_iff in Hc. destruct Hc as [Hk He]. split.
    + apply existsb_exists in Hk. destruct Hk as (k & Hin' & Hk).
      exists k. split; [exact Hin' | now apply contains_substring].
    + intros x Hx' Hsub. apply negb_true_iff in He.
      assert (any (fun e0 => contains e0 (snd (fst t))) excluded = true)
        as Habs; [|congruence].
      apply existsb_exists. exists x. split; [exact Hx'|].
      now apply contains_substring.
Qed.

Lemma Forall2_map_same {A B C : Type} (R : B -> C -> Prop)
  (f : A -> B) (g : A -> C) (l : list A) :
  Forall (fun x => R (f x) (g x)) l -> Forall2 R (List.map f l) (List.map g l).
Proof. induction 1; simpl; constructor; auto. Qed.

Lemma email_of_cases (s : str) :
  (email_of ua s = lit "N/A" /\
   forall m, Substring m s -> ~ EmailShape ua m) \/
  (Substring (email_of ua s) s /\ EmailShape ua (email_of ua s)).
Proof.
  unfold email_of. destruct (Re.search ua s) as [m|] eqn:Hs.
  - right. destruct (search_some _ _ _ Hs) as (pre & post & H & Hm & _).
    split; [exists pre, post; exact H | exact Hm].
  - left. split; [reflexivity | now apply search_none].
Qed.

(** X4. In every record of the output, the e-mail at an index is taken from
    the affiliation at the same index: it is a substring of it of the shape
    local-part [@] domain, or it is [N/A] and the affiliation has no such
    substring. *)
Theorem emitted_emails_come_from_affiliations
  (root : Element) (rs : list ResultRecord) (r : ResultRecord) :
  extract ua root = Ok rs -> In r rs ->
  Forall2 (fun aff em =>
             (em = lit "N/A" /\
              forall m, Substring m aff -> ~ EmailShape ua m) \/
             (Substring em aff /\ EmailShape ua em))
    (affiliations r) (emails r).
Proof.
  intros H Hin.
  destruct (emitted_record _ _ _ H Hin) as (article & ts & _ & _ & -> & Hts).
  unfold record_of; cbn [affiliations emails]. apply Forall2_map_same.
  eapply Forall2_entries; [|exact Hts].
  intros a t Ht. cbv beta.
  destruct (author_entry_parts ua _ _ Ht) as (e & _ & _ & _ & _ & ->).
  apply email_of_cases.
Qed.

Lemma email_shape_has_at (m : str) : EmailShape ua m -> In 64%N m.
Proof.
  intros (l & d & -> & _). apply in_or_app. right. left. reflexivity.
Qed.

Lemma nonempty_last {A : Type} (l : list A) :
  l <> [] -> exists l' a, l = l' ++ [a].
Proof.
  intros H. destruct (exists_last H) as (l' & a & ->). eauto.
Qed.

(** X5. An e-mail is found in a text exactly when the text has an [@] with
    a character of the set [[\w.-]] on either side of it. *)
Theorem email_found_iff (s : str) :
  email_of ua s <> lit "N/A" <->
  exists a b,
    Re.in_class ua a = true /\ Re.in_class ua b = true /\
    Substring [a; 64%N; b] s.
Proof.
  split.
  - intros Hne. destruct (email_of_cases s) as [[Hna _] | [Hsub Hshape]];
      [congruence|].
    destruct Hsub as (pre & post & Hs).
    destruct Hshape as (l & d & Hm & Hl & Hd & Hlall & Hdall).
    destruct (nonempty_last _ Hl) as (l' & a & ->).
    destruct d as [|b d']; [congruence|].
    exists a, b. split; [|split].
    + apply Forall_app in Hlall. destruct Hlall as [_ Ha].
      now inversion Ha.
    + now inversion Hdall.
    + exists (pre ++ l'), (d' ++ post). rewrite Hs, Hm.
      rewrite <- !app_assoc. reflexivity.
  - intros (a & b & Ha & Hb & Hsub) Hna.
    destruct (email_of_cases s) as [[_ Hnone] | [_ Hshape]].
    + apply (Hnone _ Hsub). exists [a], [b].
      repeat split; try discriminate; repeat constructor; assumption.
    + rewrite Hna in Hshape. apply email_shape_has_at in Hshape.
      vm_compute in Hshape. intuition discriminate.
Qed.

(** ** Documents in pieces *)

Lemma article_loop_acc (l : list Element) (acc : list ResultRecord) :
  article_loop ua l acc = (r <- article_loop ua l [] ;; Ok (acc ++ r)).
Proof.
  revert acc; induction l as [|a l IH]; intros acc; simpl.
  - now rewrite app_nil_r.
  - destruct (article_entry ua a) as [x|e]; simpl; [|reflexivity].
    rewrite (IH (match x with Some r => acc ++ [r] | None => acc end)).
    rewrite (IH (match x with Some r => [r] | None => [] end)).
    destruct (article_loop ua l []) as [r|e]; simpl; [|reflexivity].
    destruct x; simpl; now rewrite <- ?app_assoc.
Qed.

Lemma article_loop_app (l1 l2 : list Element) (acc : list ResultRecord) :
  article_loop ua (l1 ++ l2) acc =
  (r1 <- article_loop ua l1 acc ;; article_loop ua l2 r1).
Proof.
  revert acc; induction l1 as [|a l1 IH]; intros acc; simpl; [reflexivity|].
  destruct (article_entry ua a) as [x|e]; simpl; [apply IH | reflexivity].
Qed.

Lemma records_app (tg : str) (tx : option str) (cs1 cs2 : list Element) :
  records (Elem tg tx (cs1 ++ cs2)) =
  records (Elem tg tx cs1) ++ records (Elem tg tx cs2).
Proof.
  unfold records, findall_desc, below. simpl.
  now rewrite flat_map_app, filter_app.
Qed.

(** X6. Extraction works piece by piece: on a document whose children are
    two batches one after the other, it gives the records of the first
    batch followed by those of the second, and fails where extraction of the
    first batch fails, or else where that of the second does. *)
Theorem extract_app (tg : str) (tx : option str) (cs1 cs2 : list Element) :
  extract ua (Elem tg tx (cs1 ++ cs2)) =
  (r1 <- extract ua (Elem tg tx cs1) ;;
   r2 <- extract ua (Elem tg tx cs2) ;;
   Ok (r1 ++ r2)).
Proof.
  unfold extract. fold (records (Elem tg tx (cs1 ++ cs2))).
  fold (records (Elem tg tx cs1)). fold (records (Elem tg tx cs2)).
  rewrite records_app, article_loop_app.
  destruct (article_loop ua (records (Elem tg tx cs1)) []) as [r1|e]; simpl;
    [|reflexivity].
  apply article_loop_acc.
Qed.

End ExtractionOutcomes.

(** * Properties of the network functions and of main *)

Import Main.

Lemma join_strings (sep : str) (l : list str) :
  join sep (List.map Some l) = Ok (join_str sep l).
Proof.
  induction l as [|s l IH]; simpl; [reflexivity|].
  destruct l as [|s' l]; [reflexivity|].
  change (join sep (Some s' :: List.map Some l))
    with (join sep (List.map Some (s' :: l))).
  now rewrite IH.
Qed.

Lemma join_none (sep : str) (ids : list (option str)) :
  In None ids -> join sep ids = Raise TypeError.
Proof.
  induction ids as [|x ids IH]; simpl; [tauto|].
  intros [-> | Hin]; [reflexivity|].
  destruct x as [s|]; [|reflexivity].
  destruct ids as [|y ids]; [destruct Hin|].
  now rewrite (IH Hin).
Qed.

Section RunProperties.

Variable ua : N -> bool.
Variable requests_get : str -> list (str * param) -> response.
Variable fromstring : list Byte.byte -> parsed.
Variable builtin_text : raised -> str.
Variable open_ok : str -> bool.

(** X7. [fetch_pubmed_articles] raises [TypeError] as soon as one of the ids
    is [None], whatever the service would answer; when every id is a string
    it asks for the ids joined by commas and returns the body of the answer,
    or raises [RuntimeError] with the text of the failed request after
    [Error fetching PubMed articles: ]. *)
Theorem fetch_pubmed_articles_outcomes (ids : list (option str)) :
  (In None ids ->
   fetch_pubmed_articles requests_get ids = Throw (Core TypeError)) /\
  (forall l,
      ids = List.map Some l ->
      fetch_pubmed_articles requests_get ids =
      match requests_get efetch_url
              (efetch_params (join_str (lit ",") l)) with
      | Content content => Return content
      | RequestException e =>
          Throw (Core (RuntimeError
                         (lit "Error fetching PubMed articles: " ++ e)))
      end).
Proof.
  unfold fetch_pubmed_articles. split.
  - intros H. now rewrite (join_none _ _ H).
  - intros l ->. now rewrite join_strings.
Qed.

Lemma when_no_write (b : bool) (events : list event) :
  Forall (fun e => is_write e = false) events ->
  Forall (fun e => is_write e = false) (when b events).
Proof. destruct b; simpl; auto. Qed.

Lemma print_to_console_no_write (data : list ResultRecord) :
  Forall (fun e => is_write e = false) (print_to_console data).
Proof.
  unfold print_to_console. apply Forall_app. split.
  - induction data as [|r data IH]; simpl; [constructor|].
    repeat (constructor; [reflexivity|]). exact IH.
  - repeat constructor.
Qed.

Lemma no_write_not_in (events : list event) (f : str)
  (rows : list (list (option str))) :
  Forall (fun e => is_write e = false) events ->
  ~ In (WriteCsv f rows) events.
Proof.
  intros H Hin. rewrite Forall_forall in H. apply H in Hin. discriminate.
Qed.

Lemma in_after_prints (prints rest : list event) (f : str)
  (rows : list (list (option str))) :
  Forall (fun e => is_write e = false) prints ->
  In (WriteCsv f rows) (prints ++ rest) <-> In (WriteCsv f rows) rest.
Proof.
  intros H. rewrite in_app_iff. split; [|auto].
  intros [Hin | Hin]; [|exact Hin].
  exfalso. eapply no_write_not_in; eauto.
Qed.




Lemma filter_no_write (events : list event) :
  Forall (fun e => is_write e = false) events ->
  filter is_write events = [].
Proof.
  induction 1 as [|e l He _ IH]; simpl; [reflexivity|]. now rewrite He.
Qed.

Lemma filter_when (b : bool) (events : list event) :
  Forall (fun e => is_write e = false) events ->
  filter is_write (when b events) = [].
Proof. intros H. apply filter_no_write. now apply when_no_write. Qed.


Lemma count_join_semicolons (l : list str) :
  Forall (fun s => count_occ N.eq_dec s 59%N = 0) l ->
  count_occ N.eq_dec (join_str (lit "; ") l) 59%N = length l - 1.
Proof.
  induction 1 as [|s l Hs Hl IH]; [reflexivity|].
  destruct l as [|s' l]; [simpl; exact Hs|].
  change (join_str (lit "; ") (s :: s' :: l))
    with (s ++ lit "; " ++ join_str (lit "; ") (s' :: l)).
  rewrite !count_occ_app, Hs, IH. simpl. lia.
Qed.

Lemma email_has_no_semicolon (em : str) :
  em = lit "N/A" \/ EmailShape ua em -> count_occ N.eq_dec em 59%N = 0.
Proof.
  intros [-> | (l & d & -> & _ & _ & Hl & Hd)]; [reflexivity|].
  assert (forall x, Forall (fun c => Re.in_class ua c = true) x ->
                    count_occ N.eq_dec x 59%N = 0) as Hclass.
  { intros x Hx. apply count_occ_not_In. intros Hin.
    rewrite Forall_forall in Hx. apply Hx in Hin. discriminate. }
  rewrite count_occ_app. simpl. rewrite (Hclass l Hl), (Hclass d Hd).
  reflexivity.
Qed.

(** X12. In the CSV row of a record of the output, the e-mail cell holds one
    semicolon less than the record has authors: the e-mails themselves hold
    none, so the separators in the cell are the only ones. *)
Theorem email_cell_semicolons
  (root : Element) (rs : list ResultRecord) (r : ResultRecord) (cell : str) :
  extract ua root = Ok rs -> In r rs ->
  nth_error (csv_row r) 5 = Some (Some cell) ->
  count_occ N.eq_dec cell 59%N = length (authors r) - 1.
Proof.
  intros H Hin Hcell. simpl in Hcell. injection Hcell as <-.
  destruct (emitted_record ua _ _ _ H Hin) as (article & ts & _ & _ & -> & Hts).
  unfold record_of; cbn [emails authors].
  rewrite count_join_semicolons; [now rewrite !length_map|].
  apply Forall_map. eapply Forall2_entries; [|exact Hts].
  intros a t Ht. cbv beta.
  destruct (author_entry_parts ua _ _ Ht) as (e & _ & _ & _ & _ & ->).
  apply email_has_no_semicolon.
  destruct (email_of_cases ua (snd (fst t))) as [[Hna _] | [_ Hshape]]; auto.
Qed.

End RunProperties.

(** ** The further properties at work on the samples *)

Import SampleService.

Lemma emitted_records_have_authors_witness :
  extract no_unicode two_author_doc = Ok [two_author_record] /\
  In two_author_record [two_author_record] /\
  authors two_author_record <> [].
Proof.
  assert (extract no_unicode two_author_doc = Ok [two_author_record]) as H
    by (vm_compute; reflexivity).
  assert (In two_author_record [two_author_record]) as Hin
    by (left; reflexivity).
  split; [exact H|]. split; [exact Hin|].
  exact (proj1 (emitted_records_have_authors no_unicode two_author_doc
                  [two_author_record] two_author_record H Hin)).
Defined.

Lemma emitted_affiliations_classify_witness :
  extract no_unicode two_author_doc = Ok [two_author_record] /\
  In two_author_record [two_author_record] /\
  Forall (fun aff => aff <> []) (affiliations two_author_record).
Proof.
  assert (extract no_unicode two_author_doc = Ok [two_author_record]) as H
    by (vm_compute; reflexivity).
  assert (In two_author_record [two_author_record]) as Hin
    by (left; reflexivity).
  split; [exact H|]. split; [exact Hin|].
  eapply Forall_impl;
    [|exact (emitted_affiliations_classify no_unicode two_author_doc
               [two_author_record] two_author_record H Hin)].
  intros aff Haff. exact (proj1 Haff).
Defined.

Lemma emitted_emails_come_from_affiliations_witness :
  extract no_unicode two_author_doc = Ok [two_author_record] /\
  In two_author_record [two_author_record] /\
  length (affiliations two_author_record) =
  length (emails two_author_record).
Proof.
  assert (extract no_unicode two_author_doc = Ok [two_author_record]) as H
    by (vm_compute; reflexivity).
  assert (In two_author_record [two_author_record]) as Hin
    by (left; reflexivity).
  split; [exact H|]. split; [exact Hin|].
  exact (Forall2_same_length _ _ _
           (emitted_emails_come_from_affiliations no_unicode two_author_doc
              [two_author_record] two_author_record H Hin)).
Defined.


Lemma email_cell_semicolons_witness :
  extract no_unicode two_author_doc = Ok [two_author_record] /\
  count_occ N.eq_dec (lit "bsmith@globalbiotech.com") 59%N =
  length (authors two_author_record) - 1.
Proof.
  assert (extract no_unicode two_author_doc = Ok [two_author_record]) as H
    by (vm_compute; reflexivity).
  split; [exact H|].
  apply (email_cell_semicolons no_unicode two_author_doc
           [two_author_record] two_author_record
           (lit "bsmith@globalbiotech.com") H).
  - left. reflexivity.
  - vm_compute. reflexivity.
Defined.

(** * Affiliation blocks and document order *)

Import Order MoreSamples.

Lemma Element_induction (P : Element -> Prop) :
  (forall t x cs, Forall P cs -> P (Elem t x cs)) -> forall e, P e.
Proof.
  intros H. fix IH 1. intros [t x cs]. apply H.
  induction cs as [|c cs IHcs]; constructor; [apply IH | exact IHcs].
Qed.

Lemma flat_map_filter_flat_map {A B C : Type}
  (f : B -> list C) (g : B -> bool) (h : A -> list B) (l : list A) :
  flat_map f (filter g (flat_map h l)) =
  flat_map (fun a => flat_map f (filter g (h a))) l.
Proof.
  induction l as [|a l IH]; simpl; [reflexivity|].
  now rewrite filter_app, flat_map_app, IH.
Qed.

Lemma forallb_filter_flat_map {A B : Type}
  (f : B -> bool) (g : B -> bool) (h : A -> list B) (l : list A) :
  forallb f (filter g (flat_map h l)) =
  forallb (fun a => forallb f (filter g (h a))) l.
Proof.
  induction l as [|a l IH]; simpl; [reflexivity|].
  now rewrite filter_app, forallb_app, IH.
Qed.

Lemma map_filter_flat_map {A B C : Type}
  (f : B -> C) (g : B -> bool) (h : A -> list B) (l : list A) :
  List.map f (filter g (flat_map h l)) =
  flat_map (fun a => List.map f (filter g (h a))) l.
Proof.
  induction l as [|a l IH]; simpl; [reflexivity|].
  now rewrite filter_app, map_app, IH.
Qed.

Lemma flat_map_ext_Forall {A B : Type} (f g : A -> list B) (l : list A) :
  Forall (fun a => f a = g a) l -> flat_map f l = flat_map g l.
Proof. induction 1 as [|a l Ha _ IH]; simpl; [reflexivity|]. now rewrite Ha, IH. Qed.

Lemma flat_map_nil {A B : Type} (f : A -> list B) (l : list A) :
  Forall (fun a => f a = []) l -> flat_map f l = [].
Proof. induction 1 as [|a l Ha _ IH]; simpl; [reflexivity|]. now rewrite Ha, IH. Qed.

Lemma flat_map_keep {A : Type} (f : A -> bool) (l : list A) :
  flat_map (fun a => if f a then [a] else []) l = filter f l.
Proof.
  induction l as [|a l IH]; simpl; [reflexivity|].
  rewrite IH. now destruct (f a).
Qed.

Lemma texts_below_children (e : Element) :
  texts_below e = flat_map (texts_in (tag e)) (children e).
Proof. unfold texts_below, texts_in. apply map_filter_flat_map. Qed.

Lemma texts_in_unfold (p t : str) (x : option str) (cs : list Element) :
  texts_in p (Elem t x cs) =
  (if is_affiliation_text (p, Elem t x cs) then [Elem t x cs] else [])
  ++ texts_below (Elem t x cs).
Proof.
  rewrite texts_below_children. unfold texts_in.
  cbn [iter_under filter tag children].
  destruct (is_affiliation_text (p, Elem t x cs)); cbn [List.map snd app];
    now rewrite (map_filter_flat_map snd is_affiliation_text
                   (iter_under t) cs).
Qed.

Lemma path_texts_in_unfold (t : str) (x : option str) (cs : list Element) :
  path_texts_in (Elem t x cs) =
  (if has_tag (lit "AffiliationInfo") (Elem t x cs)
   then findall_child (lit "Affiliation") (Elem t x cs) else [])
  ++ flat_map path_texts_in cs.
Proof.
  unfold path_texts_in at 1. cbn [iter filter].
  destruct (has_tag (lit "AffiliationInfo") (Elem t x cs)); cbn [flat_map app];
    now rewrite flat_map_filter_flat_map.
Qed.

Lemma nesting_free_unfold (t : str) (x : option str) (cs : list Element) :
  nesting_free (Elem t x cs) =
  (if has_tag (lit "AffiliationInfo") (Elem t x cs)
   then forallb no_block cs else true)
  && forallb nesting_free cs.
Proof.
  unfold nesting_free at 1. cbn [iter filter].
  destruct (has_tag (lit "AffiliationInfo") (Elem t x cs));
    cbn [forallb children]; now rewrite forallb_filter_flat_map.
Qed.

Lemma no_block_unfold (t : str) (x : option str) (cs : list Element) :
  no_block (Elem t x cs) =
  negb (has_tag (lit "AffiliationInfo") (Elem t x cs)) && forallb no_block cs.
Proof.
  unfold no_block at 1. cbn [iter forallb]. f_equal.
  induction cs as [|c cs IH]; simpl; [reflexivity|].
  now rewrite forallb_app, IH.
Qed.

(** Where there is no block there is no affiliation text, in either order. *)
Lemma no_block_no_text (e : Element) :
  no_block e = true -> texts_below e = [] /\ path_texts_in e = [].
Proof.
  induction e as [t x cs IH] using Element_induction.
  rewrite no_block_unfold, path_texts_in_unfold, texts_below_children.
  intros H. apply andb_true_iff in H. destruct H as [Ht Hcs].
  apply negb_true_iff in Ht. rewrite Ht. cbn [tag children app].
  rewrite forallb_forall in Hcs. rewrite Forall_forall in IH. split.
  - apply flat_map_nil. apply Forall_forall. intros [t' x' cs'] Hin.
    rewrite texts_in_unfold.
    destruct (IH _ Hin (Hcs _ Hin)) as [-> _].
    unfold is_affiliation_text. cbn [fst].
    unfold has_tag in Ht. cbn [tag] in Ht. now rewrite Ht.
  - apply flat_map_nil. apply Forall_forall. intros c Hin.
    now destruct (IH _ Hin (Hcs _ Hin)).
Qed.

(** Where no block lies inside another, the path selects the affiliation
    texts in document order. *)
Lemma path_order_is_document_order (e : Element) :
  nesting_free e = true -> texts_below e = path_texts_in e.
Proof.
  induction e as [t x cs IH] using Element_induction.
  rewrite nesting_free_unfold, path_texts_in_unfold, texts_below_children.
  cbn [tag children]. intros H. apply andb_true_iff in H.
  destruct H as [Hblock Hcs].
  rewrite forallb_forall in Hcs. rewrite Forall_forall in IH.
  destruct (has_tag (lit "AffiliationInfo") (Elem t x cs)) eqn:Ht.
  - rewrite forallb_forall in Hblock.
    rewrite (flat_map_nil path_texts_in cs), app_nil_r.
    + unfold findall_child. cbn [children]. rewrite <- flat_map_keep.
      apply flat_map_ext_Forall. apply Forall_forall. intros [t' x' cs'] Hin.
      rewrite texts_in_unfold.
      destruct (no_block_no_text _ (Hblock _ Hin)) as [-> _].
      rewrite app_nil_r. unfold is_affiliation_text. cbn [fst snd].
      unfold has_tag in Ht. cbn [tag] in Ht. now rewrite Ht.
    + apply Forall_forall. intros c Hin.
      now destruct (no_block_no_text _ (Hblock _ Hin)).
  - cbn [app]. apply flat_map_ext_Forall. apply Forall_forall.
    intros [t' x' cs'] Hin. rewrite texts_in_unfold.
    rewrite (IH _ Hin (Hcs _ Hin)).
    unfold is_affiliation_text. cbn [fst].
    unfold has_tag in Ht. cbn [tag] in Ht. now rewrite Ht.
Qed.

Lemma affiliations_in_path_order (author : Element) :
  blocks_not_nested author = true ->
  findall_desc_child (lit "AffiliationInfo") (lit "Affiliation") author =
  affiliations_in_document_order author.
Proof.
  unfold blocks_not_nested, affiliations_in_document_order,
    findall_desc_child, findall_desc, below.
  rewrite forallb_filter_flat_map, flat_map_filter_flat_map.
  intros H. rewrite forallb_forall in H. symmetry.
  apply flat_map_ext_Forall. apply Forall_forall. intros c Hin.
  apply path_order_is_document_order. exact (H _ Hin).
Qed.

(** * The claims that stop at an empty name element *)

Section QualifyingAuthors.

Variable ua : N -> bool.

(** C1. On every document in which the name elements of qualifying authors
    have text, [extract] returns a list that pairs off, in order, with the
    records that have a qualifying author: those records produce their
    entry, the others none, and the length of the list is the number of
    such records, at most the number of records.  On a document with two
    such records, one of whose authors carries an empty given-name element,
    it raises [TypeError] and returns no list at all. *)
Theorem extract_emits_unless_name_empty :
  (forall root,
      names_ok_doc root = true ->
      exists rs,
        extract ua root = Ok rs /\
        Forall2 (fun article r => article_entry ua article = Ok (Some r))
          (filter article_qualifies (records root)) rs /\
        (forall article,
            In article (records root) ->
            article_qualifies article = false ->
            article_entry ua article = Ok None) /\
        length rs = length (filter article_qualifies (records root)) /\
        length rs <= length (records root)) /\
  (length (records mixed_doc) = 2 /\
   length (filter article_qualifies (records mixed_doc)) = 2 /\
   extract ua mixed_doc = Raise TypeError).
Proof.
  split.
  - intros root Hok.
    pose proof (article_loop_cases ua (records root) []) as H.
    unfold names_ok_doc in Hok. rewrite Hok in H. destruct H as [rs Hrs].
    exists rs. split; [exact Hrs|].
    now apply extract_emits_qualifying_records.
  - repeat split; vm_compute; reflexivity.
Qed.

Lemma qualifying_author_entry (author : Element) (name : str) :
  author_qualifies author = true ->
  full_name_of author = Ok name ->
  exists e aff,
    affil_of author = Some e /\ text e = Some aff /\
    author_entry ua author = Ok (Some (name, aff, email_of ua aff)).
Proof.
  intros Hq Hn.
  destruct (author_entry_keep ua _ Hq) as (e & aff & He & Ht & _ & Heq).
  exists e, aff. rewrite Heq, Hn. auto.
Qed.

(** C7. A qualifying author whose name elements have text gets an entry,
    and the name in it is the given name, one space, the family name when
    both are there; the family name alone when there is no given name;
    empty when there is neither.  A qualifying author whose given-name
    element is there but empty gets no name: building it raises
    [TypeError]. *)
Theorem full_name_unless_name_empty :
  (forall author,
      author_qualifies author = true ->
      (forall first last given family,
          FirstChild (lit "ForeName") author first ->
          text first = Some given ->
          FirstChild (lit "LastName") author last ->
          text last = Some family ->
          exists aff,
            author_entry ua author =
            Ok (Some (given ++ lit " " ++ family, aff, email_of ua aff))) /\
      (forall last family,
          NoChild (lit "ForeName") author ->
          FirstChild (lit "LastName") author last ->
          text last = Some family ->
          exists aff,
            author_entry ua author =
            Ok (Some (family, aff, email_of ua aff))) /\
      (NoChild (lit "ForeName") author ->
       NoChild (lit "LastName") author ->
       exists aff,
         author_entry ua author = Ok (Some ([], aff, email_of ua aff)))) /\
  (author_qualifies empty_forename_author = true /\
   FirstChild (lit "ForeName") empty_forename_author (node "ForeName" []) /\
   text (node "ForeName" []) = None /\
   author_entry ua empty_forename_author = Raise TypeError).
Proof.
  split.
  - intros author Hq.
    destruct (full_name_rule ua author) as (Hboth & Hfamily & Hnone & _).
    split; [|split].
    + intros f l g n Hf Hg Hl Hn.
      destruct (qualifying_author_entry author _ Hq (Hboth f l g n Hf Hg Hl Hn))
        as (e & aff & _ & _ & H).
      eauto.
    + intros l n Hf Hl Hn.
      destruct (qualifying_author_entry author _ Hq (Hfamily l n Hf Hl Hn))
        as (e & aff & _ & _ & H).
      eauto.
    + intros Hf Hl.
      destruct (qualifying_author_entry author _ Hq (Hnone Hf Hl))
        as (e & aff & _ & _ & H).
      eauto.
  - split; [reflexivity|]. split; [|split; reflexivity].
    apply find_child_some. reflexivity.
Qed.

(** C8. The e-mail read off a text is its leftmost substring of the shape
    local-part [@] domain (the longest one that starts there), or [N/A] when
    no substring has that shape; on the text of the example it is
    [jane.doe@acme-pharma.com].  A qualifying author whose name elements
    have text gets an entry with the e-mail read off its affiliation text.
    A qualifying author whose given-name element is empty gets no e-mail,
    though its affiliation text holds one: [TypeError] is raised before. *)
Theorem email_unless_name_empty :
  (forall s : str,
      (exists pre m post,
          s = pre ++ m ++ post /\ EmailShape ua m /\ email_of ua s = m /\
          forall pre' m' post',
            s = pre' ++ m' ++ post' -> EmailShape ua m' ->
            length pre <= length pre' /\
            (length pre' = length pre -> length m' <= length m)) \/
      ((forall m, Substring m s -> ~ EmailShape ua m) /\
       email_of ua s = lit "N/A")) /\
  email_of ua
    (lit "Acme Pharma Inc, Boston. Contact: jane.doe@acme-pharma.com") =
  lit "jane.doe@acme-pharma.com" /\
  (forall author,
      author_qualifies author = true ->
      names_have_text author = true ->
      exists name e aff,
        affil_of author = Some e /\ text e = Some aff /\
        author_entry ua author = Ok (Some (name, aff, email_of ua aff))) /\
  (author_qualifies emailed_empty_forename_author = true /\
   option_map text (affil_of emailed_empty_forename_author) =
   Some (Some (lit "Acme Pharma Inc, Boston. Contact: jane.doe@acme-pharma.com")) /\
   author_entry ua emailed_empty_forename_author = Raise TypeError).
Proof.
  destruct (email_is_first_match ua) as (Hfirst & Hexample & _).
  split; [exact Hfirst|]. split; [exact Hexample|]. split.
  - intros author Hq Hn. destruct (full_name_of_total _ Hn) as [name Hname].
    destruct (qualifying_author_entry author name Hq Hname)
      as (e & aff & He & Ht & H).
    exists name, e, aff. auto.
  - repeat split; reflexivity.
Qed.

(** What an author contributes is decided by the first element that the
    path [.//AffiliationInfo/Affiliation] selects. *)
Lemma author_entry_by_first_in_path (author e : Element)
  (rest : list Element) :
  findall_desc_child (lit "AffiliationInfo") (lit "Affiliation") author
  = e :: rest ->
  affil_of author = Some e /\
  (has_company_affiliation (text e) = false ->
   author_entry ua author = Ok None) /\
  (forall s,
      text e = Some s -> has_company_affiliation (Some s) = true ->
      author_entry ua author =
      (full_name <- full_name_of author ;;
       Ok (Some (full_name, s, email_of ua s)))) /\
  (forall other rest',
      findall_desc_child (lit "AffiliationInfo") (lit "Affiliation") other
      = e :: rest' ->
      find_child (lit "ForeName") other = find_child (lit "ForeName") author ->
      find_child (lit "LastName") other = find_child (lit "LastName") author ->
      author_entry ua other = author_entry ua author).
Proof.
  intros Hpath.
  assert (forall a r,
             findall_desc_child (lit "AffiliationInfo") (lit "Affiliation") a
             = e :: r -> affil_of a = Some e) as Hhead.
  { intros a r Ha. unfold affil_of, find_desc_child. now rewrite Ha. }
  pose proof (Hhead _ _ Hpath) as Haff.
  split; [exact Haff|]. split; [|split].
  - intros Hc. unfold author_entry. now rewrite Haff, Hc.
  - intros s Ht Hc. unfold author_entry. now rewrite Haff, Ht, Hc.
  - intros other rest' Ho Hf Hl. unfold author_entry, full_name_of.
    now rewrite (Hhead _ _ Ho), Haff, Hf, Hl.
Qed.

(** C10, as the code has it. For an author none of whose affiliation blocks
    lies inside another, the first affiliation text in document order is the
    one consulted: it decides whether the author qualifies, and it alone
    gives the affiliation and the e-mail of the entry; an author with the
    same name elements and the same first affiliation text gets the same
    entry, whatever affiliation blocks follow. *)
Theorem first_affiliation_unless_nested (author e : Element)
  (rest : list Element) :
  blocks_not_nested author = true ->
  affiliations_in_document_order author = e :: rest ->
  affil_of author = Some e /\
  (has_company_affiliation (text e) = false ->
   author_entry ua author = Ok None) /\
  (forall s,
      text e = Some s -> has_company_affiliation (Some s) = true ->
      author_entry ua author =
      (full_name <- full_name_of author ;;
       Ok (Some (full_name, s, email_of ua s)))) /\
  (forall other rest',
      blocks_not_nested other = true ->
      affiliations_in_document_order other = e :: rest' ->
      find_child (lit "ForeName") other = find_child (lit "ForeName") author ->
      find_child (lit "LastName") other = find_child (lit "LastName") author ->
      author_entry ua other = author_entry ua author).
Proof.
  intros Hflat Horder.
  rewrite <- (affiliations_in_path_order _ Hflat) in Horder.
  destruct (author_entry_by_first_in_path _ _ _ Horder)
    as (Haff & Hskip & Hkeep & Hsame).
  split; [exact Haff|]. split; [exact Hskip|]. split; [exact Hkeep|].
  intros other rest' Hflat' Horder'.
  rewrite <- (affiliations_in_path_order _ Hflat') in Horder'.
  now apply Hsame with rest'.
Qed.

End QualifyingAuthors.


Lemma first_affiliation_unless_nested_witness :
  blocks_not_nested two_block_author = true /\
  affiliations_in_document_order two_block_author =
  [leaf "Affiliation" "Acme Pharma Inc";
   leaf "Affiliation" "Harvard University"] /\
  affil_of two_block_author = Some (leaf "Affiliation" "Acme Pharma Inc").
Proof.
  assert (blocks_not_nested two_block_author = true) as Hflat
    by (vm_compute; reflexivity).
  assert (affiliations_in_document_order two_block_author =
          [leaf "Affiliation" "Acme Pharma Inc";
           leaf "Affiliation" "Harvard University"]) as Horder
    by (vm_compute; reflexivity).
  split; [exact Hflat|]. split; [exact Horder|].
  exact (proj1 (first_affiliation_unless_nested no_unicode two_block_author
                  _ _ Hflat Horder)).
Defined.

(** An author with one affiliation block inside another: in document order
    the first affiliation text is that of a university, which does not
    classify; the text consulted is the one of the company, and the author
    is kept. *)
Lemma nested_affiliation_counterexample :
  affiliations_in_document_order nested_affiliation_author =
  [leaf "Affiliation" "Harvard University";
   leaf "Affiliation" "Acme Pharma Inc"] /\
  has_company_affiliation (text (leaf "Affiliation" "Harvard University"))
  = false /\
  affil_of nested_affiliation_author =
  Some (leaf "Affiliation" "Acme Pharma Inc") /\
  author_entry no_unicode nested_affiliation_author =
  Ok (Some (lit "Ann Roe", lit "Acme Pharma Inc", lit "N/A")).
Proof. repeat split; vm_compute; reflexivity. Qed.
